(** * jsxapi: the XAPI client facade (src/xapi/index.ts)

    A shallow embedding of class [XAPI]: the request counter, the table of
    pending requests, [execute], [command], [close] and the private
    [handleResponse], together with the parts of the host they touch
    (promises, the backend, the feedback module, the logger). *)

From Stdlib Require Import Ascii String.
From stdpp Require Import gmap strings list fin_maps pretty.

Open Scope string_scope.
Open Scope list_scope.
Open Scope nat_scope.
Set Warnings "-register-all".

(** ** Values

    JavaScript values as far as the facade looks at them: the payloads it
    passes around ([any]) and the errors it can throw. *)
Inductive value :=
  | VUndefined
  | VNull
  | VBool (b : bool)
  | VNum (n : Z)
  | VStr (s : string)
  | VArr (items : list value)
  | VObj (properties : list (string * value))
  | VError (name message : string).

(** [XapiResponse]: what the backend emits on ['data'].  A field that is
    absent reads as [undefined]; for [result] and [error] the model keeps
    whether the key is an own property.  An id is kept as the property key
    it is converted to when the table is indexed with it, [None] standing
    for [undefined]. *)
Record XapiResponse := {
  resp_id : option string;
  resp_method : option string;
  resp_params : value;
  resp_result : option value;
  resp_error : option value;
}.

(** A request as [execute] hands it to the backend. *)
Record Request := {
  jsonrpc : string;
  req_id : string;
  req_method : string;
  req_params : value;
}.

(** Modelled from the spec: [rpc.createRequest] (src/xapi/rpc) is not among
    the sources: "canonical Request object with a fixed protocol version
    tag". *)
Definition createRequest (id method : string) (params : value) : Request :=
  {| jsonrpc := "2.0"; req_id := id; req_method := method; req_params := params |}.

(** ** Promises and continuations

    [execute] creates one promise per call and stores its two settling
    functions.  A promise is named by its allocation index. *)
Definition promise := nat.

Inductive continuation :=
  | ResolveOf (p : promise)
  | RejectOf (p : promise).

Definition owner (k : continuation) : promise :=
  match k with ResolveOf p => p | RejectOf p => p end.

Inductive promise_state :=
  | Pending
  | Fulfilled (v : value)
  | Rejected (reason : value).

(** [interface Requests]: one entry of the table. *)
Record Entry := { resolve : continuation; reject : continuation }.

Definition entry_of (p : promise) : Entry :=
  {| resolve := ResolveOf p; reject := RejectOf p |}.

(** Calls that leave the facade, in the order they are made. *)
Inductive effect :=
  | LogDebug (tag : string) (response : XapiResponse)
  | FeedbackDispatch (params : value)
  | BackendExecute (request : Request)
  | BackendClose
  | Call (k : continuation) (v : value).

(** ** State

    [requestId] and [requests] are the private fields of [XAPI];
    [promises] and [effects] belong to the host. *)
Record state := {
  requestId : N;
  requests : gmap string Entry;
  promises : list promise_state;
  effects : list effect;
}.

(** [private requestId = 1; private requests: Requests = {}]. *)
Definition fresh : state :=
  {| requestId := 1; requests := ∅; promises := []; effects := [] |}.

Definition set_requestId (n : N) (st : state) : state :=
  {| requestId := n; requests := requests st;
     promises := promises st; effects := effects st |}.

Definition set_requests (t : gmap string Entry) (st : state) : state :=
  {| requestId := requestId st; requests := t;
     promises := promises st; effects := effects st |}.

Definition set_promises (ps : list promise_state) (st : state) : state :=
  {| requestId := requestId st; requests := requests st;
     promises := ps; effects := effects st |}.

Definition add_effect (e : effect) (st : state) : state :=
  {| requestId := requestId st; requests := requests st;
     promises := promises st; effects := effects st ++ [e] |}.

(** ** Computations: state and exceptions

    A statement either completes or throws; what it did to the state
    before throwing stays done. *)
Inductive completion (A : Type) :=
  | Normal (a : A)
  | Throw (e : value).
Arguments Normal {A} a.
Arguments Throw {A} e.

Definition M (A : Type) : Type := state → completion A * state.

Global Instance M_ret : MRet M := λ A a st, (Normal a, st).

Global Instance M_bind : MBind M := λ A B f m st,
  match m st with
  | (Normal a, st') => f a st'
  | (Throw e, st') => (Throw e, st')
  end.

Definition throw {A} (e : value) : M A := λ st, (Throw e, st).

Definition try_catch {A} (body : M A) (handler : value → M A) : M A := λ st,
  match body st with
  | (Normal a, st') => (Normal a, st')
  | (Throw e, st') => handler e st'
  end.

Definition perform (e : effect) : M unit := λ st, (Normal (), add_effect e st).

(** ** The host: promises, logger, feedback *)

(** The first call of a settling function settles the promise; later calls
    do nothing. *)
Definition settle (k : continuation) (v : value)
    (ps : list promise_state) : list promise_state :=
  match ps !! owner k with
  | Some Pending =>
      <[owner k := match k with
                   | ResolveOf _ => Fulfilled v
                   | RejectOf _ => Rejected v
                   end]> ps
  | _ => ps
  end.

(** Calling a continuation taken from the table. *)
Definition call (k : continuation) (v : value) : M unit := λ st,
  (Normal (), set_promises (settle k v (promises st)) (add_effect (Call k v) st)).

Definition new_promise : M promise := λ st,
  (Normal (length (promises st)), set_promises (promises st ++ [Pending]) st).

(** [log.debug(tag, response)]. *)
Definition log_debug (tag : string) (response : XapiResponse) : M unit :=
  perform (LogDebug tag response).

(** [this.feedback.dispatch(params)]: the feedback module is outside this
    file; the call is recorded. *)
Definition feedback_dispatch (params : value) : M unit :=
  perform (FeedbackDispatch params).

(** ** The table of pending requests *)

(** The property key an id is converted to. *)
Definition propertyKey (id : option string) : string := default "undefined" id.

Definition destructureError : value :=
  VError "TypeError" "Cannot destructure property of this.requests[id] as it is undefined.".

(** [const { resolve } = this.requests[id]]: destructuring [undefined]
    throws a TypeError.  (An id that names a property every object
    inherits finds no continuation either and the call that follows throws
    a TypeError of its own; the two are not told apart here.) *)
Definition requests_get (id : option string) : M Entry := λ st,
  match requests st !! propertyKey id with
  | Some entry => (Normal entry, st)
  | None => (Throw destructureError, st)
  end.

(** [this.requests[id] = { resolve, reject }]. *)
Definition requests_set (id : string) (entry : Entry) : M unit := λ st,
  (Normal (), set_requests (<[id := entry]> (requests st)) st).

(** [delete this.requests[id]]. *)
Definition requests_delete (id : option string) : M unit := λ st,
  (Normal (), set_requests (delete (propertyKey id) (requests st)) st).

(** ** XAPI.nextRequestId *)

(** [this.requestId += 1] on a JavaScript number: exact up to 2^53, where
    adding one rounds back to 2^53. *)
Definition maxExact : N := 2 ^ 53.

Definition increment (n : N) : N := if (n <? maxExact)%N then (n + 1)%N else n.

(** [requestId.toString()]: decimal digits. *)
Definition toString (n : N) : string := pretty n.

Definition nextRequestId : M string := λ st,
  (Normal (toString (requestId st)), set_requestId (increment (requestId st)) st).

(** ** XAPI.handleResponse *)

Definition feedbackEvent : string := "xFeedback/Event".

Definition handleResponse (response : XapiResponse) : M unit :=
  let id := resp_id response in
  if decide (resp_method response = Some feedbackEvent) then
    log_debug "feedback:" response;;
    feedback_dispatch (resp_params response)
  else
    match resp_result response with
    | Some result =>
        log_debug "result:" response;;
        entry ← requests_get id;
        call (resolve entry) result
    | None =>
        log_debug "error:" response;;
        entry ← requests_get id;
        call (reject entry) (default VUndefined (resp_error response))
    end;;
    requests_delete id.

(** ** The backend

    The facade holds a [Backend] and listens to its ['data'] event with
    [handleResponse].  What a backend does inside one call is described by
    a [reaction]: the messages it emits on ['data'] before the call returns
    ([emitted]), whether it catches what a listener throws ([guarded];
    an emitter by itself lets it propagate), and the error it ends with,
    if any ([failure]). *)
Record reaction := {
  emitted : list XapiResponse;
  guarded : bool;
  failure : option value;
}.

(** A backend that answers later, from its own events (as [Backend.execute]
    does, which waits for [isReady]). *)
Definition quiet : reaction :=
  {| emitted := []; guarded := false; failure := None |}.

Fixpoint emit_data (catches : bool) (messages : list XapiResponse) : M unit :=
  match messages with
  | [] => mret ()
  | response :: rest =>
      try_catch (handleResponse response)
                (λ e, if catches then mret () else throw e);;
      emit_data catches rest
  end.

Definition react (b : reaction) : M unit :=
  emit_data (guarded b) (emitted b);;
  match failure b with
  | Some e => throw e
  | None => mret ()
  end.

(** [this.backend.execute(request)]. *)
Definition backend_execute (b : reaction) (request : Request) : M unit :=
  perform (BackendExecute request);;
  react b.

(** [this.backend.close()]. *)
Definition backend_close (b : reaction) : M unit :=
  perform BackendClose;;
  react b.

(** ** XAPI.execute

    [new Promise(executor)] runs the executor at once; when the executor
    throws, the promise is rejected with what it threw. *)
Definition reject_promise (p : promise) (e : value) : M unit := λ st,
  (Normal (), set_promises (settle (RejectOf p) e (promises st)) st).

Definition execute (method : string) (params : value) (b : reaction) : M promise :=
  p ← new_promise;
  try_catch
    (id ← nextRequestId;
     let request := createRequest id method params in
     backend_execute b request;;
     requests_set id {| resolve := ResolveOf p; reject := RejectOf p |})
    (reject_promise p);;
  mret p.

(** ** XAPI.close *)
Definition close (b : reaction) : M unit :=
  backend_close b.

(** ** XAPI.command *)

Inductive Path :=
  | PathString (text : string)
  | PathArray (segments : list string).

Definition is_delimiter (c : Ascii.ascii) : bool :=
  bool_decide (c = " "%char) || bool_decide (c = "/"%char).

Definition cons_segment (w : string) (ws : list string) : list string :=
  match w with
  | EmptyString => ws
  | _ => w :: ws
  end.

(** The segment that starts the text, and the segments after it. *)
Fixpoint split_segments (text : string) : string * list string :=
  match text with
  | EmptyString => (EmptyString, [])
  | String c rest =>
      let '(w, ws) := split_segments rest in
      if is_delimiter c then (EmptyString, cons_segment w ws) else (String c w, ws)
  end.

(** Modelled from the spec: [normalizePath] (src/xapi/normalizePath) is not
    among the sources: "paths accepted as either a single
    space/slash-delimited string or an explicit ordered sequence of
    segments; both forms must normalize to the identical ordered sequence
    [...] and case of segment text is preserved". *)
Definition normalizePath (path : Path) : list string :=
  match path with
  | PathString text => let '(w, ws) := split_segments text in cons_segment w ws
  | PathArray segments => segments
  end.

(** Setting a property of an object literal: an existing key keeps its
    place. *)
Fixpoint set_property (key : string) (v : value)
    (properties : list (string * value)) : list (string * value) :=
  match properties with
  | [] => [(key, v)]
  | (k, x) :: rest =>
      if decide (k = key) then (k, v) :: rest
      else (k, x) :: set_property key v rest
  end.

(** The own enumerable properties [Object.assign] copies from a source:
    those of an object, the indices of an array or of a string; none for
    the other values. *)
Definition own_properties (source : value) : list (string * value) :=
  match source with
  | VObj properties => properties
  | VArr items => imap (λ i x, (toString (N.of_nat i), x)) items
  | VStr text =>
      imap (λ i c, (toString (N.of_nat i), VStr (String c EmptyString)))
           (list_ascii_of_string text)
  | _ => []
  end.

(** [Object.assign({ body }, params)]. *)
Definition assign_body (body : string) (params : value) : value :=
  VObj (foldl (λ target kv, set_property kv.1 kv.2 target)
              [("body", VStr body)] (own_properties params)).

Definition command_method (path : Path) : string :=
  let apiPath := String.concat "/" (normalizePath path) in
  "xCommand/" +:+ apiPath.

Definition command (path : Path) (params : value) (body : option string)
    (b : reaction) : M promise :=
  let method := command_method path in
  let executeParams :=
    match body with
    | None => params
    | Some text => assign_body text params
    end in
  execute method executeParams b.

(** ** Runs

    What can happen to an instance: the caller calls [execute], [command]
    or [close], and the backend emits ['data'] on its own. *)
Inductive action :=
  | Execute (method : string) (params : value) (b : reaction)
  | Command (path : Path) (params : value) (body : option string) (b : reaction)
  | Deliver (response : XapiResponse)
  | Close (b : reaction).

Definition step (st : state) (a : action) : state :=
  match a with
  | Execute method params b => (execute method params b st).2
  | Command path params body b => (command path params body b st).2
  | Deliver response => (handleResponse response st).2
  | Close b => (close b st).2
  end.

Definition run (actions : list action) (st : state) : state :=
  foldl step st actions.

Definition is_send (a : action) : bool :=
  match a with
  | Execute _ _ _ | Command _ _ _ _ => true
  | _ => false
  end.

(** The ids of the requests handed to the backend, oldest first. *)
Definition issued_ids (es : list effect) : list string :=
  omap (λ e, match e with BackendExecute r => Some (req_id r) | _ => None end) es.

(** How often the continuations of promise [p] were called. *)
Definition is_call_on (p : promise) (e : effect) : bool :=
  match e with
  | Call k _ => bool_decide (owner k = p)
  | _ => false
  end.

Definition calls_on (p : promise) (es : list effect) : nat :=
  length (filter (λ e, is_call_on p e) es).

Definition result_response (id : string) (v : value) : XapiResponse :=
  {| resp_id := Some id; resp_method := None; resp_params := VUndefined;
     resp_result := Some v; resp_error := None |}.

Definition error_response (id : string) (e : value) : XapiResponse :=
  {| resp_id := Some id; resp_method := None; resp_params := VUndefined;
     resp_result := None; resp_error := Some e |}.

Definition feedback_message (params : value) : XapiResponse :=
  {| resp_id := None; resp_method := Some feedbackEvent; resp_params := params;
     resp_result := None; resp_error := None |}.

(** ** Backend (src/backend)

    The class is not among the sources; its test
    (test/backend/index.spec.ts) is.  What follows is taken from section
    4.1 of the spec. *)
Module Backend.

(** Modelled from the spec: the request the backend receives, a
    "Request-shaped object (may lack [id])". *)
Record request := {
  id : option string;
  method : string;
  params : value;
}.

(** Modelled from the spec: a registered handler; it hands back a settled
    outcome or throws. *)
Definition handler : Type := request → completion promise_state.

Definition invalidRequestMethod : string := "Invalid request method".

(** Modelled from the spec: class [Backend] (src/backend) is not among
    the sources, only its test is: "[defaultHandler(request)] returns a
    rejected outcome carrying [Invalid request method]; never throws
    synchronously". *)
Definition defaultHandler (r : request) : completion promise_state :=
  Normal (Rejected (VError "Error" invalidRequestMethod)).

Section Dispatch.

(** The rule that turns a method name into the key of its handler
    ([xCommand/Dial] is served by the [xCommand] handler) is not
    spelled out by the spec. *)
Variable handlerKey : string → string.

(** Modelled from the spec: [Backend.execute]: "Looks up a locally
    registered handler keyed by the request's method name [...] If no
    handler matches, falls back to a default handler"; "a handler
    invocation that throws is caught and converted into an
    Error-shaped Response". *)
Definition execute (handlers : gmap string handler) (r : request) : promise_state :=
  let handle := default defaultHandler (handlers !! handlerKey (method r)) in
  match handle r with
  | Normal outcome => outcome
  | Throw e => Rejected e
  end.

End Dispatch.

End Backend.

(** * Vocabulary of the statements *)

Ltac unfold_M :=
  unfold mbind, M_bind, mret, M_ret, throw, try_catch, perform, log_debug,
    feedback_dispatch, call, requests_get, requests_set, requests_delete,
    nextRequestId, new_promise, reject_promise in *.

(** The state a call of continuation [k] leaves. *)
Definition after_call (tag : string) (response : XapiResponse)
    (k : continuation) (v : value) (st : state) : state :=
  set_requests (delete (propertyKey (resp_id response)) (requests st))
    (set_promises (settle k v (promises st))
       (add_effect (Call k v) (add_effect (LogDebug tag response) st))).

(** The four ways a message is handled. *)
Inductive handled (response : XapiResponse) (st : state) :
    completion unit * state → Prop :=
  | handled_feedback :
      resp_method response = Some feedbackEvent →
      handled response st
        (Normal (), add_effect (FeedbackDispatch (resp_params response))
                      (add_effect (LogDebug "feedback:" response) st))
  | handled_settled tag entry k v :
      resp_method response ≠ Some feedbackEvent →
      requests st !! propertyKey (resp_id response) = Some entry →
      k = resolve entry ∨ k = reject entry →
      handled response st (Normal (), after_call tag response k v st)
  | handled_unknown tag :
      resp_method response ≠ Some feedbackEvent →
      requests st !! propertyKey (resp_id response) = None →
      handled response st
        (Throw destructureError, add_effect (LogDebug tag response) st).

(** What a computation added to the record of calls. *)
Definition new_effects (st st' : state) : list effect :=
  drop (length (effects st)) (effects st').

(** A payload that is neither a feedback event nor a response: it carries
    neither [result] nor [error], or it carries no id. *)
Definition malformed (response : XapiResponse) : Prop :=
  resp_method response ≠ Some feedbackEvent ∧
  ((resp_result response = None ∧ resp_error response = None) ∨
   resp_id response = None).

Definition is_settling (e : effect) : bool :=
  match e with
  | Call _ _ => true
  | _ => false
  end.

Definition is_dispatch (e : effect) : bool :=
  match e with
  | FeedbackDispatch _ => true
  | _ => false
  end.

Definition bare_response (id : string) : XapiResponse :=
  {| resp_id := Some id; resp_method := None; resp_params := VUndefined;
     resp_result := None; resp_error := None |}.

(** The counter and the ids handed out after [n] requests: the [i]-th
    request carries [i] until the counter stops at 2^53. *)
Definition nth_id (i : nat) : string := toString (N.min (N.of_nat i) maxExact).

Definition counter_at (n : nat) (st : state) : Prop :=
  requestId st = N.min (N.of_nat (S n)) maxExact ∧
  issued_ids (effects st) = nth_id <$> seq 1 n.

Definition sends (actions : list action) : nat :=
  length (filter (λ a, is_send a) actions).

(** The state in which [execute] enters [backend.execute]. *)
Definition calling_backend (method : string) (params : value) (st : state) : state :=
  add_effect (BackendExecute (createRequest (toString (requestId st)) method params))
    (set_requestId (increment (requestId st))
       (set_promises (promises st ++ [Pending]) st)).

(** The discipline of the table: every entry holds the two continuations
    of one promise that is still pending and was never called; different
    ids hold different promises; no promise had its continuations called
    more than once. *)
Record consistent (st : state) : Prop := {
  table_entries : ∀ id e, requests st !! id = Some e →
    ∃ p, e = entry_of p ∧ promises st !! p = Some Pending ∧
         calls_on p (effects st) = 0;
  table_distinct : ∀ id1 id2 p,
    requests st !! id1 = Some (entry_of p) →
    requests st !! id2 = Some (entry_of p) → id1 = id2;
  called_once : ∀ p, calls_on p (effects st) ≤ 1;
  called_allocated : ∀ p, length (promises st) ≤ p → calls_on p (effects st) = 0;
}.

(** Promise [p] exists, is pending, was never called and is not in the
    table: the promise of an [execute] that has not stored its entry yet. *)
Definition reserved (p : promise) (st : state) : Prop :=
  promises st !! p = Some Pending ∧
  calls_on p (effects st) = 0 ∧
  ∀ id, requests st !! id ≠ Some (entry_of p).

(** The keys of the table are ids that were handed out. *)
Definition keys_issued (st : state) : Prop :=
  (requestId st < maxExact)%N →
  ∀ id, is_Some (requests st !! id) → ∃ k, (k < requestId st)%N ∧ id = toString k.

(** Every key of the table is the decimal rendering of a number. *)
Definition keys_numeric (st : state) : Prop :=
  ∀ id, is_Some (requests st !! id) → ∃ k, id = toString k.

(** A segment of a path: not empty, and free of the two delimiters. *)
Fixpoint plain (w : string) : bool :=
  match w with
  | EmptyString => true
  | String c rest => negb (is_delimiter c) && plain rest
  end.

Definition is_segment (w : string) : Prop := w ≠ EmptyString ∧ plain w = true.

(** Texts that do not start with anything but a decimal digit. *)
Definition is_digit (c : Ascii.ascii) : bool :=
  (48 <=? nat_of_ascii c) && (nat_of_ascii c <=? 57).

Definition digit_led (text : string) : Prop :=
  match text with
  | EmptyString => True
  | String c _ => is_digit c = true
  end.

(** ** Vocabulary of the further properties *)

(** What a step that sends no request leaves alone: the counter, the
    number of promises and the requests handed to the backend; the table
    can only lose entries, and the record of calls only grows. *)
Record unsent (st st' : state) : Prop := {
  same_counter : requestId st' = requestId st;
  same_promise_count : length (promises st') = length (promises st);
  same_issued : issued_ids (effects st') = issued_ids (effects st);
  fewer_entries : requests st' ⊆ requests st;
  more_effects : ∃ added, effects st' = effects st ++ added;
}.

Definition is_backend_call (e : effect) : bool :=
  match e with
  | BackendExecute _ | BackendClose => true
  | _ => false
  end.

(** Each entry belongs to the request that carries its key: the entry under
    the id of request [p + 1] holds the continuations of promise [p], for
    the first [n] promises. *)
Definition paired (n : nat) (st : state) : Prop :=
  ∀ id e, requests st !! id = Some e →
    ∃ p, p < n ∧ e = entry_of p ∧ id = nth_id (S p).

(** A fulfilled promise has the result of a handled response that carried
    the id of its request. *)
Definition justified (st : state) : Prop :=
  ∀ p v, promises st !! p = Some (Fulfilled v) →
    ∃ response,
      LogDebug "result:" response ∈ effects st ∧
      resp_method response ≠ Some feedbackEvent ∧
      resp_result response = Some v ∧
      propertyKey (resp_id response) = nth_id (S p).

(** Reading a property of an object. *)
Fixpoint get_property (key : string) (properties : list (string * value))
    : option value :=
  match properties with
  | [] => None
  | (k, x) :: rest => if decide (k = key) then Some x else get_property key rest
  end.

(** The requests handed to the backend, oldest first. *)
Definition sent_requests (es : list effect) : list Request :=
  omap (λ e, match e with BackendExecute r => Some r | _ => None end) es.

(** The method and the params a call asks to send. *)
Definition call_of (a : action) : option (string * value) :=
  match a with
  | Execute method params _ => Some (method, params)
  | Command path params body _ =>
      Some (command_method path,
            match body with
            | None => params
            | Some text => assign_body text params
            end)
  | _ => None
  end.

(** The params handed to [feedback.dispatch], oldest first. *)
Definition dispatched (es : list effect) : list value :=
  omap (λ e, match e with FeedbackDispatch params => Some params | _ => None end) es.

(** The feedback event a delivery brings, if it is one. *)
Definition feedback_of (a : action) : option value :=
  match a with
  | Deliver response =>
      if decide (resp_method response = Some feedbackEvent)
      then Some (resp_params response) else None
  | _ => None
  end.

(** The backend delivers nothing from within the calls of this action. *)
Definition answers_later (a : action) : bool :=
  match a with
  | Execute _ _ b | Command _ _ _ b | Close b =>
      match emitted b with [] => true | _ => false end
  | Deliver _ => true
  end.

(** * Examples *)

Example run_two_requests :
  let st := run [Execute "xGet" VNull quiet; Execute "xGet" VNull quiet;
                 Deliver (result_response "2" (VNum 7))] fresh in
  issued_ids (effects st) = ["1"; "2"] ∧
  requests st = {[ "1" := entry_of 0 ]} ∧
  promises st = [Pending; Fulfilled (VNum 7)] ∧
  calls_on 1 (effects st) = 1.
Proof. vm_compute. done. Qed.

Example device_error_rejects :
  let failure := VObj [("code", VNum 1); ("message", VStr "Unknown command")] in
  let st := run [Execute "xCommand/Dail" VNull quiet;
                 Deliver (error_response "1" failure)] fresh in
  promises st = [Rejected failure] ∧ requests st = ∅.
Proof. vm_compute. done. Qed.

Example split_example :
  normalizePath (PathString "Audio Volume/Set") = ["Audio"; "Volume"; "Set"].
Proof. reflexivity. Qed.

(** * handleResponse, case by case *)

Lemma handleResponse_feedback response st :
  resp_method response = Some feedbackEvent →
  handleResponse response st =
    (Normal (), add_effect (FeedbackDispatch (resp_params response))
                  (add_effect (LogDebug "feedback:" response) st)).
Proof.
  intros Hm. unfold handleResponse. rewrite decide_True by done. reflexivity.
Qed.

Lemma handleResponse_result response st r entry :
  resp_method response ≠ Some feedbackEvent →
  resp_result response = Some r →
  requests st !! propertyKey (resp_id response) = Some entry →
  handleResponse response st =
    (Normal (), after_call "result:" response (resolve entry) r st).
Proof.
  intros Hm Hr He. unfold handleResponse. rewrite decide_False by done.
  rewrite Hr. unfold_M. simpl. rewrite He. reflexivity.
Qed.

Lemma handleResponse_error response st entry :
  resp_method response ≠ Some feedbackEvent →
  resp_result response = None →
  requests st !! propertyKey (resp_id response) = Some entry →
  handleResponse response st =
    (Normal (), after_call "error:" response (reject entry)
                  (default VUndefined (resp_error response)) st).
Proof.
  intros Hm Hr He. unfold handleResponse. rewrite decide_False by done.
  rewrite Hr. unfold_M. simpl. rewrite He. reflexivity.
Qed.

Lemma handleResponse_unknown response st :
  resp_method response ≠ Some feedbackEvent →
  requests st !! propertyKey (resp_id response) = None →
  handleResponse response st =
    (Throw destructureError,
     add_effect (LogDebug (match resp_result response with
                           | Some _ => "result:"
                           | None => "error:"
                           end) response) st).
Proof.
  intros Hm He. unfold handleResponse. rewrite decide_False by done.
  destruct (resp_result response); unfold_M; simpl; rewrite He; reflexivity.
Qed.

Lemma handleResponse_handled response st :
  handled response st (handleResponse response st).
Proof.
  destruct (decide (resp_method response = Some feedbackEvent)) as [Hm|Hm].
  { rewrite handleResponse_feedback by done. by constructor. }
  destruct (requests st !! propertyKey (resp_id response)) as [entry|] eqn:He.
  - destruct (resp_result response) as [r|] eqn:Hr.
    + erewrite handleResponse_result by done. econstructor; eauto.
    + erewrite handleResponse_error by done. econstructor; eauto.
  - rewrite handleResponse_unknown by done. by constructor.
Qed.

(** * Claims about handleResponse *)

(** C1: when a message that is not a feedback event carries an id with an
    entry in the table, a [result] key makes [handleResponse] call the
    entry's resolve continuation with the result, and otherwise an [error]
    key makes it call the entry's reject continuation with the error; in
    both cases the call completes and the id is gone from the table. *)
Theorem handleResponse_settles_matching_entry response st id entry :
  resp_id response = Some id →
  resp_method response ≠ Some feedbackEvent →
  requests st !! id = Some entry →
  (∀ r, resp_result response = Some r →
     handleResponse response st =
       (Normal (), after_call "result:" response (resolve entry) r st) ∧
     effects (handleResponse response st).2 =
       (effects st ++ [LogDebug "result:" response; Call (resolve entry) r])%list) ∧
  (∀ e, resp_result response = None → resp_error response = Some e →
     handleResponse response st =
       (Normal (), after_call "error:" response (reject entry) e st) ∧
     effects (handleResponse response st).2 =
       (effects st ++ [LogDebug "error:" response; Call (reject entry) e])%list) ∧
  (handleResponse response st).1 = Normal () ∧
  requests (handleResponse response st).2 = delete id (requests st) ∧
  requests (handleResponse response st).2 !! id = None.
Proof.
  intros Hid Hm He.
  assert (Hkey : propertyKey (resp_id response) = id) by (by rewrite Hid).
  rewrite <- Hkey in He.
  split; [|split].
  - intros r Hr. erewrite handleResponse_result by done.
    split; [done|]. simpl. by rewrite <- app_assoc.
  - intros e Hr Herr. erewrite handleResponse_error by done.
    rewrite Herr. split; [done|]. simpl. by rewrite <- app_assoc.
  - destruct (resp_result response) as [r|] eqn:Hr.
    + erewrite handleResponse_result by done. simpl.
      rewrite Hkey. by rewrite lookup_delete_eq.
    + erewrite handleResponse_error by done. simpl.
      rewrite Hkey. by rewrite lookup_delete_eq.
Qed.

Lemma handleResponse_settles_matching_entry_witness :
  let st := run [Execute "xCommand/Dial" VNull quiet] fresh in
  let response := result_response "1" (VNum 42) in
  requests st !! "1" = Some (entry_of 0) ∧
  effects (handleResponse response st).2 =
    (effects st ++ [LogDebug "result:" response; Call (ResolveOf 0) (VNum 42)])%list ∧
  requests (handleResponse response st).2 !! "1" = None.
Proof.
  intros st response.
  assert (Hentry : requests st !! "1" = Some (entry_of 0)) by (vm_compute; reflexivity).
  assert (Hm : resp_method response ≠ Some feedbackEvent) by (intros H; discriminate H).
  destruct (handleResponse_settles_matching_entry response st "1" (entry_of 0)
              eq_refl Hm Hentry) as (Hres & _ & _ & _ & Hgone).
  split; [exact Hentry|]. split; [|exact Hgone].
  exact (proj2 (Hres (VNum 42) eq_refl)).
Defined.

Lemma effects_add_effect e st : effects (add_effect e st) = (effects st ++ [e])%list.
Proof. reflexivity. Qed.

Lemma new_effects_app st st' l :
  effects st' = (effects st ++ l)%list → new_effects st st' = l.
Proof. unfold new_effects. intros ->. by rewrite drop_app_length. Qed.

Lemma new_effects_after_call tag response k v st :
  new_effects st (after_call tag response k v st) = [LogDebug tag response; Call k v].
Proof. apply new_effects_app. simpl. by rewrite <- app_assoc. Qed.

Lemma new_effects_add_effect e st : new_effects st (add_effect e st) = [e].
Proof. by apply new_effects_app. Qed.

Lemma handleResponse_no_dispatch response st :
  resp_method response ≠ Some feedbackEvent →
  Forall (λ e, is_dispatch e = false)
    (new_effects st (handleResponse response st).2).
Proof.
  intros Hm.
  destruct (handleResponse_handled response st) as [Hf|tag entry k v _ _ _|tag _ _];
    [done| |]; simpl.
  - rewrite new_effects_after_call. by repeat constructor.
  - rewrite new_effects_add_effect. by repeat constructor.
Qed.

(** C2: at a response whose id has no entry (here id 7 while only request 1
    is pending) [handleResponse] throws a TypeError from the destructuring
    of [undefined]; it calls no continuation and leaves the table as it
    was. *)
Theorem handleResponse_unknown_id_throws :
  let st := run [Execute "xCommand/Dial" VNull quiet] fresh in
  let response := result_response "7" (VNum 42) in
  requests st !! "7" = None ∧
  (handleResponse response st).1 = Throw destructureError ∧
  new_effects st (handleResponse response st).2 = [LogDebug "result:" response] ∧
  requests (handleResponse response st).2 = requests st.
Proof.
  intros st response.
  assert (Hnone : requests st !! "7" = None) by (vm_compute; reflexivity).
  assert (Hm : resp_method response ≠ Some feedbackEvent) by (intros H; discriminate H).
  rewrite (handleResponse_unknown response st Hm Hnone).
  split; [exact Hnone|]. split; [reflexivity|]. split; [|reflexivity].
  apply new_effects_add_effect.
Qed.

(** C9: a message whose method is "xFeedback/Event" has its params handed
    to [feedback.dispatch] and leaves the table (and every promise) as it
    was; a message with any other method never reaches
    [feedback.dispatch]. *)
Theorem handleResponse_feedback_frame response st :
  let st' := (handleResponse response st).2 in
  (resp_method response = Some feedbackEvent →
     (handleResponse response st).1 = Normal () ∧
     new_effects st st' =
       [LogDebug "feedback:" response; FeedbackDispatch (resp_params response)] ∧
     requests st' = requests st ∧
     promises st' = promises st ∧
     requestId st' = requestId st) ∧
  (resp_method response ≠ Some feedbackEvent →
     Forall (λ e, is_dispatch e = false) (new_effects st st')).
Proof.
  intros st'. subst st'. split.
  - intros Hm. rewrite handleResponse_feedback by done. simpl.
    repeat split; try reflexivity.
    apply new_effects_app. simpl. by rewrite <- app_assoc.
  - intros Hm. by apply handleResponse_no_dispatch.
Qed.

Lemma handleResponse_feedback_frame_witness :
  let st := run [Execute "xCommand/Dial" VNull quiet] fresh in
  let event := feedback_message (VObj [("Status", VStr "Standby")]) in
  new_effects st (handleResponse event st).2 =
    [LogDebug "feedback:" event; FeedbackDispatch (VObj [("Status", VStr "Standby")])] ∧
  requests (handleResponse event st).2 = requests st ∧
  Forall (λ e, is_dispatch e = false)
    (new_effects st (handleResponse (result_response "1" VNull) st).2).
Proof.
  intros st event.
  destruct (handleResponse_feedback_frame event st) as [Hfeed _].
  destruct (handleResponse_feedback_frame (result_response "1" VNull) st) as [_ Hother].
  destruct (Hfeed eq_refl) as (_ & Hnew & Htable & _).
  split; [exact Hnew|]. split; [exact Htable|].
  apply Hother. intros H; discriminate H.
Defined.

(** * What the backend can do inside a call *)

Section Preservation.

Variable P : state → Prop.
Hypothesis handle_keeps : ∀ response st, P st → P (handleResponse response st).2.

Lemma emit_data_keeps catches messages st :
  P st → P (emit_data catches messages st).2.
Proof.
  revert st. induction messages as [|response rest IH]; intros st HP; [done|].
  simpl. unfold_M. specialize (handle_keeps response st HP).
  destruct (handleResponse response st) as [[[]|e] st1]; simpl in *.
  - by apply IH.
  - destruct catches; simpl; [by apply IH | done].
Qed.

Lemma react_keeps b st : P st → P (react b st).2.
Proof.
  intros HP. unfold react. unfold_M.
  pose proof (emit_data_keeps (guarded b) (emitted b) st HP) as Hk.
  destruct (emit_data (guarded b) (emitted b) st) as [[[]|e] st1]; simpl in *;
    [|done].
  by destruct (failure b).
Qed.

End Preservation.

Lemma execute_unfold method params b st :
  execute method params b st =
    let p := length (promises st) in
    let id := toString (requestId st) in
    match react b (calling_backend method params st) with
    | (Normal _, st') =>
        (Normal p, set_requests (<[id := entry_of p]> (requests st')) st')
    | (Throw e, st') =>
        (Normal p, set_promises (settle (RejectOf p) e (promises st')) st')
    end.
Proof.
  unfold execute, backend_execute, calling_backend. unfold_M. simpl.
  by destruct (react b _) as [[[]|e] st'].
Qed.

Lemma close_unfold b st : close b st = react b (add_effect BackendClose st).
Proof.
  unfold close, backend_close. unfold_M. simpl.
  by destruct (react b _) as [[[]|e] st'].
Qed.

(** * The request counter *)

Lemma issued_ids_snoc es e :
  issued_ids (es ++ [e]) =
    (issued_ids es ++
       match e with BackendExecute r => [req_id r] | _ => [] end)%list.
Proof. unfold issued_ids. rewrite omap_app. by destruct e. Qed.

Lemma issued_ids_after_call tag response k v st :
  issued_ids (effects (after_call tag response k v st)) = issued_ids (effects st).
Proof. simpl. by rewrite !issued_ids_snoc, !app_nil_r. Qed.

Lemma handleResponse_counter n response st :
  counter_at n st → counter_at n (handleResponse response st).2.
Proof.
  intros [Hc Hi].
  destruct (handleResponse_handled response st); split; try done.
  - simpl. by rewrite !issued_ids_snoc, !app_nil_r.
  - cbn [snd]. by rewrite issued_ids_after_call.
  - simpl. by rewrite issued_ids_snoc, app_nil_r.
Qed.

Lemma increment_min n :
  increment (N.min (N.of_nat (S n)) maxExact) = N.min (N.of_nat (S (S n))) maxExact.
Proof. unfold increment. case_match; [apply N.ltb_lt in H | apply N.ltb_ge in H]; lia. Qed.

Lemma calling_backend_counter n method params st :
  counter_at n st → counter_at (S n) (calling_backend method params st).
Proof.
  intros [Hc Hi]. unfold calling_backend. split.
  - simpl. rewrite Hc. apply increment_min.
  - rewrite effects_add_effect, issued_ids_snoc, seq_S, fmap_app.
    cbn [effects set_requestId set_promises req_id createRequest].
    rewrite Hi, Hc, list_fmap_singleton. change (1 + n) with (S n).
    unfold nth_id. reflexivity.
Qed.

Lemma execute_counter n method params b st :
  counter_at n st → counter_at (S n) (execute method params b st).2.
Proof.
  intros Hc. rewrite execute_unfold. simpl.
  pose proof (react_keeps (counter_at (S n)) (handleResponse_counter (S n)) b _
                (calling_backend_counter n method params st Hc)) as Hr.
  by destruct (react b _) as [[[]|e] st'].
Qed.

Lemma close_counter n b st : counter_at n st → counter_at n (close b st).2.
Proof.
  intros Hc. rewrite close_unfold.
  apply (react_keeps (counter_at n) (handleResponse_counter n)).
  destruct Hc as [Hc Hi]. split; [done|]. simpl. by rewrite issued_ids_snoc, app_nil_r.
Qed.

Lemma run_snoc actions a st : run (actions ++ [a]) st = step (run actions st) a.
Proof. unfold run. by rewrite foldl_app. Qed.

Lemma sends_snoc actions a :
  sends (actions ++ [a]) = if is_send a then S (sends actions) else sends actions.
Proof.
  unfold sends. rewrite filter_app, length_app.
  destruct a; simpl; lia.
Qed.

Lemma run_counter actions : counter_at (sends actions) (run actions fresh).
Proof.
  induction actions as [|a actions IH] using rev_ind; [done|].
  rewrite run_snoc, sends_snoc.
  destruct a; simpl.
  - by apply execute_counter.
  - by apply execute_counter.
  - by apply handleResponse_counter.
  - by apply close_counter.
Qed.

Lemma nth_id_exact i : (N.of_nat i ≤ maxExact)%N → nth_id i = toString (N.of_nat i).
Proof. intros Hi. unfold nth_id. by rewrite N.min_l. Qed.

Global Instance toString_inj : Inj (=) (=) toString.
Proof. unfold toString. apply _. Qed.

(** C5: on a fresh instance the requests carry the ids "1", "2", "3", ...
    in the order of the calls of [execute] (whatever else happens in
    between), each the decimal string of the previous number plus one, and
    no two calls get the same id.  The counter is a JavaScript number, so
    this is for calls made while it is below 2^53. *)
Theorem request_ids_count_up actions :
  (N.of_nat (sends actions) ≤ maxExact)%N →
  let ids := issued_ids (effects (run actions fresh)) in
  ids = (λ i, toString (N.of_nat i)) <$> seq 1 (sends actions) ∧
  (∀ i, i < sends actions → ids !! i = Some (toString (N.of_nat i + 1))) ∧
  (0 < sends actions → ids !! 0 = Some "1") ∧
  NoDup ids ∧
  (∀ i j id, ids !! i = Some id → ids !! j = Some id → i = j).
Proof.
  intros Hn ids.
  assert (Hids : ids = (λ i, toString (N.of_nat i)) <$> seq 1 (sends actions)).
  { subst ids. destruct (run_counter actions) as [_ ->].
    apply list_fmap_ext. intros k i Hk%lookup_seq. apply nth_id_exact. lia. }
  assert (Hat : ∀ i, i < sends actions → ids !! i = Some (toString (N.of_nat i + 1))).
  { intros i Hi. rewrite Hids, list_lookup_fmap, lookup_seq_lt by done. simpl.
    do 2 f_equal. lia. }
  assert (Hnodup : NoDup ids).
  { rewrite Hids. apply NoDup_fmap_2; [|apply NoDup_seq].
    intros x y Hxy. apply (inj toString) in Hxy. lia. }
  split; [done|]. split; [done|]. split; [by intros H0; apply (Hat 0)|].
  split; [done|].
  intros i j id Hi Hj. by eapply NoDup_lookup.
Qed.

Lemma request_ids_count_up_witness :
  let actions := [Execute "xGet" VNull quiet; Deliver (result_response "1" VNull);
                  Command (PathString "Audio Volume Mute") VUndefined None quiet;
                  Execute "xSet" VNull quiet] in
  issued_ids (effects (run actions fresh)) = ["1"; "2"; "3"].
Proof.
  intros actions.
  assert (Hn : (N.of_nat (sends actions) ≤ maxExact)%N) by (vm_compute; discriminate).
  destruct (request_ids_count_up actions Hn) as [Hids _].
  exact Hids.
Defined.

(** * The discipline of the pending table *)

Lemma calls_on_snoc p es e :
  calls_on p (es ++ [e]) = calls_on p es + (if is_call_on p e then 1 else 0).
Proof.
  unfold calls_on. rewrite filter_app, length_app. f_equal.
  destruct (is_call_on p e) eqn:He.
  - rewrite filter_cons_True by (by rewrite He). done.
  - rewrite filter_cons_False by (rewrite He; simpl; tauto). done.
Qed.

Lemma calls_on_add_effect p e st :
  is_call_on p e = false →
  calls_on p (effects (add_effect e st)) = calls_on p (effects st).
Proof. intros He. rewrite effects_add_effect, calls_on_snoc, He. lia. Qed.

Lemma calls_on_after_call p tag response k v st :
  calls_on p (effects (after_call tag response k v st)) =
    calls_on p (effects st) + (if bool_decide (owner k = p) then 1 else 0).
Proof.
  unfold after_call. cbn [effects set_requests set_promises].
  rewrite effects_add_effect, calls_on_snoc, calls_on_add_effect by done.
  reflexivity.
Qed.

Lemma settle_length k v ps : length (settle k v ps) = length ps.
Proof. unfold settle. repeat case_match; by rewrite ?length_insert. Qed.

Lemma settle_lookup_ne k v ps p : owner k ≠ p → settle k v ps !! p = ps !! p.
Proof.
  intros Hp. unfold settle. repeat case_match; try done;
    by rewrite list_lookup_insert_ne.
Qed.

Lemma settle_reject_pending p e ps :
  ps !! p = Some Pending → settle (RejectOf p) e ps !! p = Some (Rejected e).
Proof.
  intros Hp. unfold settle. cbn [owner]. rewrite Hp.
  apply list_lookup_insert_eq. by eapply lookup_lt_Some.
Qed.

Lemma entry_owner entry k p :
  entry = entry_of p → k = resolve entry ∨ k = reject entry → owner k = p.
Proof. by intros -> [->| ->]. Qed.

(** Only the table, the promises and the calls matter. *)
Lemma consistent_ext st st' :
  requests st' = requests st →
  promises st' = promises st →
  (∀ p, calls_on p (effects st') = calls_on p (effects st)) →
  consistent st → consistent st'.
Proof.
  intros Hr Hp Hc [Hent Hdis Honce Halloc].
  split; rewrite ?Hr, ?Hp; [|done|..].
  - intros id e He. destruct (Hent id e He) as (p & ? & ? & ?).
    exists p. by rewrite Hc.
  - intros p. by rewrite Hc.
  - intros p. rewrite Hc. apply Halloc.
Qed.

Lemma reserved_ext p st st' :
  requests st' = requests st →
  promises st' = promises st →
  calls_on p (effects st') = calls_on p (effects st) →
  reserved p st → reserved p st'.
Proof. intros Hr Hp Hc. unfold reserved. by rewrite Hr, Hp, Hc. Qed.

Lemma handleResponse_consistent response st :
  consistent st → consistent (handleResponse response st).2.
Proof.
  intros Hcons. pose proof Hcons as [Hent Hdis Honce Halloc].
  destruct (handleResponse_handled response st) as [Hm|tag entry k v Hm He Hk|tag Hm He];
    cbn [snd].
  - apply (consistent_ext st); [done|done| |done].
    intros p. by rewrite !calls_on_add_effect.
  - destruct (Hent _ _ He) as (p0 & -> & Hp0 & Hc0).
    assert (Hown : owner k = p0) by (by eapply entry_owner).
    split; unfold after_call; cbn [requests promises set_requests set_promises add_effect].
    + intros id e [Hne Hid]%lookup_delete_Some.
      destruct (Hent _ _ Hid) as (p & -> & Hp & Hc).
      assert (p0 ≠ p) by (intros ->; apply Hne; by eapply Hdis).
      exists p. split; [done|]. rewrite settle_lookup_ne by congruence.
      split; [done|].
      fold (after_call tag response k v st). rewrite calls_on_after_call.
      rewrite bool_decide_false by congruence. lia.
    + intros id1 id2 p [_ H1]%lookup_delete_Some [_ H2]%lookup_delete_Some. eauto.
    + intros p. fold (after_call tag response k v st). rewrite calls_on_after_call.
      case_bool_decide; [subst; rewrite Hc0; lia | specialize (Honce p); lia].
    + intros p. rewrite settle_length. intros Hp.
      fold (after_call tag response k v st). rewrite calls_on_after_call.
      apply lookup_lt_Some in Hp0.
      rewrite bool_decide_false by lia. rewrite Halloc by done. lia.
  - apply (consistent_ext st); [done|done| |done].
    intros p. by rewrite calls_on_add_effect.
Qed.

Lemma handleResponse_reserved p response st :
  consistent st ∧ reserved p st →
  consistent (handleResponse response st).2 ∧ reserved p (handleResponse response st).2.
Proof.
  intros [Hcons Hres]. pose proof Hres as (Hp & Hc & Hfree).
  split; [by apply handleResponse_consistent|].
  destruct (handleResponse_handled response st) as [Hm|tag entry k v Hm He Hk|tag Hm He];
    cbn [snd].
  - apply (reserved_ext p st); [done|done| |done]. by rewrite !calls_on_add_effect.
  - destruct (table_entries _ Hcons _ _ He) as (p0 & -> & Hp0 & Hc0).
    assert (Hown : owner k = p0) by (by eapply entry_owner).
    assert (p0 ≠ p) by (intros ->; by eapply Hfree).
    split; [|split].
    + unfold after_call. cbn [promises set_requests set_promises].
      rewrite settle_lookup_ne by congruence. done.
    + rewrite calls_on_after_call, bool_decide_false by congruence. lia.
    + unfold after_call. cbn [requests set_requests].
      intros id [_ Hid]%lookup_delete_Some. by eapply Hfree.
  - apply (reserved_ext p st); [done|done| |done]. by rewrite calls_on_add_effect.
Qed.

Lemma calling_backend_reserved method params st :
  consistent st →
  consistent (calling_backend method params st) ∧
  reserved (length (promises st)) (calling_backend method params st).
Proof.
  intros Hcons. pose proof Hcons as [Hent Hdis Honce Halloc].
  assert (Hcalls : ∀ p, calls_on p (effects (calling_backend method params st)) =
                        calls_on p (effects st)).
  { intros p. unfold calling_backend. by rewrite calls_on_add_effect. }
  split; [split|split; [|split]]; unfold calling_backend in *;
    cbn [requests promises add_effect set_requestId set_promises] in *.
  - intros id e He. destruct (Hent id e He) as (p & ? & Hp & ?).
    exists p. rewrite Hcalls. split; [done|]. split; [|done].
    by apply lookup_app_l_Some.
  - done.
  - intros p. by rewrite Hcalls.
  - intros p. rewrite length_app, Hcalls. simpl. intros Hp. apply Halloc. lia.
  - rewrite lookup_app_r, Nat.sub_diag by done. done.
  - rewrite Hcalls. by apply Halloc.
  - intros id He. destruct (Hent _ _ He) as (p & Hp & Hlt%lookup_lt_Some & _).
    injection Hp as <-. lia.
Qed.

Lemma execute_consistent method params b st :
  consistent st → consistent (execute method params b st).2.
Proof.
  intros Hcons. rewrite execute_unfold. cbn zeta.
  set (p := length (promises st)).
  pose proof (react_keeps (λ s, consistent s ∧ reserved p s)
                (handleResponse_reserved p) b _
                (calling_backend_reserved method params st Hcons)) as Hr.
  destruct (react b _) as [[[]|e] st']; cbn [snd] in *;
    destruct Hr as [Hc (Hp & Hzero & Hfree)];
    pose proof Hc as [Hent Hdis Honce Halloc].
  - split; cbn [requests promises effects set_requests]; [| |done|done].
    + intros id e' [[<- <-]|[Hne He]]%lookup_insert_Some; [by exists p|eauto].
    + intros id1 id2 q [[<- Hq]|[Hne1 H1]]%lookup_insert_Some
                       [[<- Hq']|[Hne2 H2]]%lookup_insert_Some; try done.
      * injection Hq as <-. by destruct (Hfree id2).
      * injection Hq' as <-. by destruct (Hfree id1).
      * eauto.
  - split; cbn [requests promises effects set_promises];
      [| done | done | by rewrite settle_length].
    intros id e' He. destruct (Hent id e' He) as (q & -> & Hq & Hcq).
    exists q. split; [done|]. split; [|done].
    rewrite settle_lookup_ne; [done|]. simpl. intros Heq.
    apply (Hfree id). congruence.
Qed.

Lemma close_consistent b st : consistent st → consistent (close b st).2.
Proof.
  intros Hcons. rewrite close_unfold.
  apply (react_keeps consistent handleResponse_consistent).
  apply (consistent_ext st); [done|done| |done].
  intros p. by rewrite calls_on_add_effect.
Qed.

Lemma fresh_consistent : consistent fresh.
Proof.
  split; simpl.
  - intros id e He. by rewrite lookup_empty in He.
  - intros id1 id2 p He. by rewrite lookup_empty in He.
  - intros p. unfold calls_on. simpl. lia.
  - done.
Qed.

Lemma step_consistent st a : consistent st → consistent (step st a).
Proof.
  destruct a; simpl.
  - apply execute_consistent.
  - apply execute_consistent.
  - apply handleResponse_consistent.
  - apply close_consistent.
Qed.

Lemma run_consistent actions : consistent (run actions fresh).
Proof.
  induction actions as [|a actions IH] using rev_ind; [apply fresh_consistent|].
  rewrite run_snoc. by apply step_consistent.
Qed.

(** A backend that catches what its listeners throw and does not fail
    returns. *)
Lemma emit_data_guarded messages st : (emit_data true messages st).1 = Normal ().
Proof.
  revert st. induction messages as [|response rest IH]; intros st; [done|].
  simpl. unfold_M. by destruct (handleResponse response st) as [[[]|e] st1].
Qed.

Lemma react_returns b st :
  guarded b = true → failure b = None → (react b st).1 = Normal ().
Proof.
  intros Hg Hf. unfold react. unfold_M. rewrite Hg, Hf.
  pose proof (emit_data_guarded (emitted b) st) as He.
  by destruct (emit_data true (emitted b) st) as [[[]|e] st1].
Qed.

(** C4: along every run from a fresh instance the table has one entry per
    id, every entry holds the continuations of one pending promise that
    was never called, and no promise has its continuations called more
    than once; [execute], when the call of the backend returns, creates
    the entry of its id, and handling a response with that id removes it, after
    which a second message with the same id calls nothing. *)
Theorem pending_table_discipline actions :
  let st := run actions fresh in
  NoDup (map_to_list (requests st)).*1 ∧
  (∀ id e, requests st !! id = Some e →
     ∃ p, e = entry_of p ∧ promises st !! p = Some Pending ∧
          calls_on p (effects st) = 0) ∧
  (∀ p, calls_on p (effects st) ≤ 1) ∧
  (∀ method params b,
     (react b (calling_backend method params st)).1 = Normal () →
     requests (execute method params b st).2 !! toString (requestId st) =
       Some (entry_of (length (promises st)))) ∧
  (∀ response id, resp_method response ≠ Some feedbackEvent →
     resp_id response = Some id → is_Some (requests st !! id) →
     let st1 := (handleResponse response st).2 in
     let st2 := (handleResponse response st1).2 in
     requests st1 !! id = None ∧
     Forall (λ e, is_settling e = false) (new_effects st1 st2) ∧
     requests st2 = requests st1 ∧ promises st2 = promises st1).
Proof.
  intros st. pose proof (run_consistent actions) as [Hent Hdis Honce Halloc].
  fold st in Hent, Hdis, Honce, Halloc.
  split; [apply NoDup_fst_map_to_list|]. split; [done|]. split; [done|]. split.
  - intros method params b Hret. rewrite execute_unfold. cbn zeta.
    destruct (react b _) as [[[]|e] st']; [|done].
    cbn [snd requests set_requests]. apply lookup_insert_eq.
  - intros response id Hm Hid [entry He] st1 st2.
    assert (Hkey : propertyKey (resp_id response) = id) by (by rewrite Hid).
    assert (Hgone : requests st1 !! id = None).
    { subst st1. rewrite <- Hkey in He.
      destruct (handleResponse_handled response st) as [|tag entry' k v _ _ _|tag _ Hnone];
        [done| |congruence].
      unfold after_call. cbn [snd requests set_requests].
      rewrite <- Hkey. apply lookup_delete_eq. }
    split; [done|]. subst st2. rewrite <- Hkey in Hgone.
    rewrite (handleResponse_unknown response st1 Hm Hgone). cbn [snd].
    rewrite new_effects_add_effect. split; [by repeat constructor|done].
Qed.

Lemma pending_table_discipline_witness :
  let st := run [Execute "xGet" VNull quiet] fresh in
  let response := result_response "2" (VStr "on") in
  let b := {| emitted := []; guarded := true; failure := None |} in
  let st1 := (execute "xCommand/Standby/Activate" VUndefined b st).2 in
  let st2 := (handleResponse response st1).2 in
  let st3 := (handleResponse response st2).2 in
  requests st !! "1" = Some (entry_of 0) ∧
  requests st1 !! "2" = Some (entry_of 1) ∧
  requests st2 !! "2" = None ∧
  requests st3 = requests st2.
Proof.
  intros st response b st1 st2 st3.
  assert (H1 : requests st !! "1" = Some (entry_of 0)) by (vm_compute; reflexivity).
  destruct (pending_table_discipline [Execute "xGet" VNull quiet])
    as (_ & _ & _ & Hcreate & _).
  destruct (pending_table_discipline [Execute "xGet" VNull quiet;
              Execute "xCommand/Standby/Activate" VUndefined b])
    as (_ & _ & _ & _ & Hremove).
  assert (Hm : resp_method response ≠ Some feedbackEvent) by (intros H; discriminate H).
  assert (H2 : requests st1 !! "2" = Some (entry_of 1))
    by exact (Hcreate "xCommand/Standby/Activate" VUndefined b eq_refl).
  destruct (Hremove response "2" Hm eq_refl (ex_intro _ _ H2)) as (Hgone & _ & Hsame & _).
  split; [exact H1|]. split; [exact H2|]. split; [exact Hgone | exact Hsame].
Defined.

(** * The order of the statements of execute *)

Lemma handleResponse_keys n response st :
  keys_issued st ∧ requestId st = n →
  keys_issued (handleResponse response st).2 ∧
  requestId (handleResponse response st).2 = n.
Proof.
  intros [Hkeys Hn].
  destruct (handleResponse_handled response st) as [Hm|tag entry k v Hm He Hk|tag Hm He];
    cbn [snd]; split; try done.
  unfold after_call, keys_issued. cbn [requestId requests set_requests set_promises add_effect].
  intros Hlt id [e [_ Hid]%lookup_delete_Some]. apply Hkeys; [done|by exists e].
Qed.

Lemma increment_below n :
  (increment n < maxExact)%N → (n < maxExact)%N ∧ increment n = (n + 1)%N.
Proof. unfold increment. case_match; [apply N.ltb_lt in H | apply N.ltb_ge in H]; lia. Qed.

Lemma calling_backend_keys method params st :
  keys_issued st →
  keys_issued (calling_backend method params st) ∧
  requestId (calling_backend method params st) = increment (requestId st).
Proof.
  intros Hkeys. split; [|done]. unfold calling_backend.
  intros [Hlt Hinc]%increment_below id He.
  cbn [requestId requests add_effect set_requestId set_promises] in *.
  destruct (Hkeys Hlt id He) as (k & Hk & ->). exists k. split; [|done].
  simpl. lia.
Qed.

Lemma execute_keys method params b st :
  keys_issued st → keys_issued (execute method params b st).2.
Proof.
  intros Hkeys. rewrite execute_unfold. cbn zeta.
  pose proof (react_keeps _ (handleResponse_keys (increment (requestId st))) b _
                (calling_backend_keys method params st Hkeys)) as Hr.
  destruct (react b _) as [[[]|e] st']; cbn [snd] in *; destruct Hr as [Hk Hn];
    [|done].
  intros Hlt id. cbn [requestId requests set_requests] in *.
  rewrite Hn in Hlt. destruct (increment_below _ Hlt) as [Hlt' Hinc].
  intros [<-|[_ He]]%lookup_insert_is_Some.
  - exists (requestId st). split; [lia|done].
  - apply Hk; [lia|done].
Qed.

Lemma close_keys b st : keys_issued st → keys_issued (close b st).2.
Proof.
  intros Hkeys. rewrite close_unfold.
  by apply (react_keeps _ (handleResponse_keys (requestId st)) b (add_effect BackendClose st)).
Qed.

Lemma run_keys actions : keys_issued (run actions fresh).
Proof.
  induction actions as [|a actions IH] using rev_ind.
  { intros _ id [e He]. change (requests (run [] fresh)) with (∅ : gmap string Entry) in He.
    by rewrite lookup_empty in He. }
  rewrite run_snoc. destruct a; simpl.
  - by apply execute_keys.
  - by apply execute_keys.
  - by apply (handleResponse_keys (requestId (run actions fresh))).
  - by apply close_keys.
Qed.

(** The id about to be handed out is not a key of the table. *)
Lemma next_id_unused actions :
  let st := run actions fresh in
  (requestId st < maxExact)%N → requests st !! toString (requestId st) = None.
Proof.
  intros st Hlt. apply eq_None_not_Some. intros He.
  destruct (run_keys actions Hlt _ He) as (k & Hk & Heq).
  apply (inj toString) in Heq. fold st in Hk. lia.
Qed.

Lemma pretty_N_char_digit x : is_digit (pretty_N_char x) = true.
Proof. unfold pretty_N_char. by repeat case_match. Qed.

Lemma pretty_N_go_digit_led x text :
  digit_led text → digit_led (pretty_N_go x text).
Proof.
  revert text. induction (N.lt_wf_0 x) as [x _ IH]. intros text Htext.
  destruct (decide (x = 0%N)) as [->|Hx]; [by rewrite pretty_N_go_0|].
  rewrite pretty_N_go_step by lia. apply IH.
  - apply N.div_lt; lia.
  - apply pretty_N_char_digit.
Qed.

Lemma toString_digit_led n : digit_led (toString n).
Proof.
  unfold toString, pretty, pretty_N. case_decide; [done|].
  by apply pretty_N_go_digit_led.
Qed.

Lemma handleResponse_numeric response st :
  keys_numeric st → keys_numeric (handleResponse response st).2.
Proof.
  intros Hkeys.
  destruct (handleResponse_handled response st) as [Hm|tag entry k v Hm He Hk|tag Hm He];
    cbn [snd]; try done.
  unfold after_call, keys_numeric. cbn [requests set_requests].
  intros id [e [_ Hid]%lookup_delete_Some]. apply Hkeys. by exists e.
Qed.

Lemma run_numeric actions : keys_numeric (run actions fresh).
Proof.
  induction actions as [|a actions IH] using rev_ind.
  { intros id [e He]. change (requests (run [] fresh)) with (∅ : gmap string Entry) in He.
    by rewrite lookup_empty in He. }
  rewrite run_snoc.
  assert (Hsend : ∀ method params b,
            keys_numeric (execute method params b (run actions fresh)).2).
  { intros method params b. rewrite execute_unfold. cbn zeta.
    pose proof (react_keeps keys_numeric handleResponse_numeric b
                  (calling_backend method params (run actions fresh)) IH) as Hr.
    destruct (react b _) as [[[]|e] st']; cbn [snd] in *; [|done].
    intros id. cbn [requests set_requests].
    intros [<-|[_ He]]%lookup_insert_is_Some; [by eexists | by apply Hr]. }
  destruct a; simpl.
  - apply Hsend.
  - apply Hsend.
  - by apply handleResponse_numeric.
  - rewrite close_unfold. by apply (react_keeps keys_numeric handleResponse_numeric).
Qed.

(** No id reads "undefined", so a payload without an id finds no entry. *)
Lemma undefined_unused actions :
  requests (run actions fresh) !! propertyKey None = None.
Proof.
  apply eq_None_not_Some. intros He.
  destruct (run_numeric actions _ He) as (k & Heq).
  pose proof (toString_digit_led k) as Hd. rewrite <- Heq in Hd. discriminate Hd.
Qed.

(** C10: [execute] calls [backend.execute] before it stores the
    continuations: when the backend is entered the table has no entry
    under the new id, so a response for that id delivered from within the
    call finds none and calls no continuation; the entry is stored only
    afterwards (and not at all when the exception reaches the executor,
    which rejects the promise). *)
Theorem execute_stores_after_backend_call actions method params response catches :
  let st := run actions fresh in
  let id := toString (requestId st) in
  let p := length (promises st) in
  let b := {| emitted := [response]; guarded := catches; failure := None |} in
  let st' := (execute method params b st).2 in
  (requestId st < maxExact)%N →
  resp_id response = Some id →
  resp_method response ≠ Some feedbackEvent →
  requests (calling_backend method params st) !! id = None ∧
  (handleResponse response (calling_backend method params st)).1 =
    Throw destructureError ∧
  new_effects st st' =
    [BackendExecute (createRequest id method params);
     LogDebug (match resp_result response with
               | Some _ => "result:"
               | None => "error:"
               end) response] ∧
  calls_on p (effects st') = 0 ∧
  requests st' !! id = (if catches then Some (entry_of p) else None) ∧
  promises st' !! p = Some (if catches then Pending else Rejected destructureError).
Proof.
  intros st id p b st' Hlt Hid Hm.
  pose proof (next_id_unused actions Hlt) as Hnone. fold st id in Hnone.
  assert (Hkey : propertyKey (resp_id response) = id) by (by rewrite Hid).
  set (st0 := calling_backend method params st).
  assert (Hnone0 : requests st0 !! propertyKey (resp_id response) = None)
    by (by rewrite Hkey).
  pose proof (handleResponse_unknown response st0 Hm Hnone0) as Hthrow.
  assert (Hcalls : calls_on p (effects st0) = 0).
  { unfold st0, calling_backend. rewrite calls_on_add_effect by done.
    apply (called_allocated _ (run_consistent actions)). done. }
  assert (Hp : promises st0 !! p = Some Pending).
  { unfold st0, calling_backend. cbn [promises add_effect set_requestId set_promises].
    rewrite lookup_app_r, Nat.sub_diag by done. done. }
  split; [by rewrite <- Hkey|]. split; [by rewrite Hthrow|].
  subst st'. rewrite execute_unfold. cbn zeta. fold st0 p id.
  unfold react, b. cbn [emitted guarded failure emit_data]. unfold_M.
  rewrite Hthrow.
  set (tag := match resp_result response with
              | Some _ => "result:"
              | None => "error:"
              end).
  set (st1 := add_effect (LogDebug tag response) st0).
  assert (Heffects : effects st1 =
            effects st ++ [BackendExecute (createRequest id method params);
                           LogDebug tag response]).
  { unfold st1, st0, calling_backend. rewrite !effects_add_effect.
    cbn [effects set_requestId set_promises]. by rewrite <- app_assoc. }
  assert (Hcalls1 : calls_on p (effects st1) = 0)
    by (unfold st1; by rewrite calls_on_add_effect).
  destruct catches; cbn [fst snd].
  - split; [by apply new_effects_app|]. split; [done|].
    split; [apply lookup_insert_eq | done].
  - split; [by apply new_effects_app|]. split; [done|].
    split; [by rewrite <- Hkey|].
    cbn [promises set_promises]. apply settle_reject_pending. exact Hp.
Qed.

Lemma execute_stores_after_backend_call_witness :
  let st := run [Execute "xGet" VNull quiet] fresh in
  let b catches :=
    {| emitted := [result_response "2" (VNum 80)]; guarded := catches;
       failure := None |} in
  requests (execute "xGet" VNull (b false) st).2 !! "2" = None ∧
  promises (execute "xGet" VNull (b false) st).2 !! 1 =
    Some (Rejected destructureError) ∧
  requests (execute "xGet" VNull (b true) st).2 !! "2" = Some (entry_of 1) ∧
  calls_on 1 (effects (execute "xGet" VNull (b true) st).2) = 0.
Proof.
  intros st b.
  assert (Hlt : (requestId st < maxExact)%N) by (vm_compute; reflexivity).
  assert (Hm : resp_method (result_response "2" (VNum 80)) ≠ Some feedbackEvent)
    by (intros H; discriminate H).
  destruct (execute_stores_after_backend_call [Execute "xGet" VNull quiet]
              "xGet" VNull (result_response "2" (VNum 80)) false Hlt eq_refl Hm)
    as (_ & _ & _ & _ & Hlost & Hrejected).
  destruct (execute_stores_after_backend_call [Execute "xGet" VNull quiet]
              "xGet" VNull (result_response "2" (VNum 80)) true Hlt eq_refl Hm)
    as (_ & _ & _ & Hcalls & Hstored & _).
  split; [exact Hlost|]. split; [exact Hrejected|].
  split; [exact Hstored | exact Hcalls].
Defined.

(** * Payloads that are not responses *)

(** C3, as stated, fails: a payload with neither [result] nor [error] whose
    id is pending is taken for an error response, so the entry's reject
    continuation is called and the entry is removed. *)
Lemma malformed_payload_rejects_pending :
  let st := run [Execute "xCommand/Dial" VNull quiet] fresh in
  let response := bare_response "1" in
  malformed response ∧
  new_effects st (handleResponse response st).2 =
    [LogDebug "error:" response; Call (RejectOf 0) VUndefined] ∧
  requests st !! "1" = Some (entry_of 0) ∧
  requests (handleResponse response st).2 !! "1" = None ∧
  ¬ (Forall (λ e, is_settling e = false)
       (new_effects st (handleResponse response st).2) ∧
     requests (handleResponse response st).2 = requests st).
Proof.
  intros st response.
  assert (Hentry : requests st !! "1" = Some (entry_of 0)) by (vm_compute; reflexivity).
  assert (Hm : resp_method response ≠ Some feedbackEvent) by (intros H; discriminate H).
  rewrite (handleResponse_error response st (entry_of 0) Hm eq_refl Hentry).
  cbn [fst snd]. rewrite new_effects_after_call.
  split; [split; [exact Hm | left; done]|].
  split; [reflexivity|]. split; [exact Hentry|].
  split; [apply lookup_delete_eq|].
  intros [Hcalls _]. apply Forall_cons in Hcalls as [_ Hcalls].
  apply Forall_cons in Hcalls as [Hcall _]. discriminate Hcall.
Qed.

(** C3, amended: a payload that is not a feedback event never reaches
    [feedback.dispatch]; when its id has no entry, no continuation is
    called and the table is unchanged, and a payload without an id never
    has one (its key is "undefined"); when it carries neither [result] nor
    [error] and its id has an entry, exactly that entry's reject
    continuation is called, with [undefined], and only that entry is
    removed. *)
Theorem handleResponse_without_result response st :
  resp_method response ≠ Some feedbackEvent →
  let st' := (handleResponse response st).2 in
  Forall (λ e, is_dispatch e = false) (new_effects st st') ∧
  (requests st !! propertyKey (resp_id response) = None →
     Forall (λ e, is_settling e = false) (new_effects st st') ∧
     requests st' = requests st ∧ promises st' = promises st) ∧
  (∀ actions, st = run actions fresh → resp_id response = None →
     requests st !! propertyKey (resp_id response) = None) ∧
  (∀ entry, resp_result response = None → resp_error response = None →
     requests st !! propertyKey (resp_id response) = Some entry →
     new_effects st st' =
       [LogDebug "error:" response; Call (reject entry) VUndefined] ∧
     requests st' = delete (propertyKey (resp_id response)) (requests st)).
Proof.
  intros Hm st'. subst st'. split; [|split; [|split]].
  - by apply handleResponse_no_dispatch.
  - intros Hnone. rewrite handleResponse_unknown by done. simpl.
    rewrite new_effects_add_effect. by repeat constructor.
  - intros actions -> ->. by apply undefined_unused.
  - intros entry Hr Herr He. erewrite handleResponse_error by done.
    rewrite Herr. simpl. by rewrite new_effects_after_call.
Qed.

Lemma handleResponse_without_result_witness :
  let st := run [Execute "xCommand/Dial" VNull quiet] fresh in
  let st' := (handleResponse (bare_response "1") st).2 in
  let st'' := (handleResponse (bare_response "9") st).2 in
  new_effects st st' =
    [LogDebug "error:" (bare_response "1"); Call (RejectOf 0) VUndefined] ∧
  requests st' = delete "1" (requests st) ∧
  requests st'' = requests st.
Proof.
  intros st st' st''.
  assert (Hm : ∀ id, resp_method (bare_response id) ≠ Some feedbackEvent)
    by (intros id H; discriminate H).
  assert (Hentry : requests st !! "1" = Some (entry_of 0)) by (vm_compute; reflexivity).
  assert (Hnone : requests st !! "9" = None) by (vm_compute; reflexivity).
  destruct (handleResponse_without_result (bare_response "1") st (Hm "1"))
    as (_ & _ & _ & Hrej).
  destruct (handleResponse_without_result (bare_response "9") st (Hm "9"))
    as (_ & Hdrop & _).
  split; [exact (proj1 (Hrej (entry_of 0) eq_refl eq_refl Hentry))|].
  split; [exact (proj2 (Hrej (entry_of 0) eq_refl eq_refl Hentry))|].
  exact (proj1 (proj2 (Hdrop Hnone))).
Defined.

(** * close *)

(** C7, as stated, fails: [close] with two requests pending calls no
    continuation, leaves both promises pending and both entries in the
    table, and a feedback event handled afterwards still reaches
    [feedback.dispatch]. *)
Lemma close_leaves_requests_pending :
  let st := run [Execute "xGet" VNull quiet; Execute "xSet" VNull quiet] fresh in
  let st' := (close quiet st).2 in
  let event := feedback_message (VObj [("Standby", VStr "On")]) in
  requests st !! "1" = Some (entry_of 0) ∧
  requests st !! "2" = Some (entry_of 1) ∧
  new_effects st st' = [BackendClose] ∧
  promises st' = [Pending; Pending] ∧
  requests st' = requests st ∧
  ¬ (∃ reason, promises st' !! 0 = Some (Rejected reason)) ∧
  ¬ Forall (λ e, is_dispatch e = false) (new_effects st' (handleResponse event st').2).
Proof.
  intros st st' event.
  split; [vm_compute; reflexivity|]. split; [vm_compute; reflexivity|].
  split; [vm_compute; reflexivity|]. split; [vm_compute; reflexivity|].
  split; [vm_compute; reflexivity|]. split.
  - intros [reason Hr]. vm_compute in Hr. discriminate Hr.
  - intros Hall. vm_compute in Hall.
    apply Forall_cons in Hall as [_ Hall]. apply Forall_cons in Hall as [Hd _].
    discriminate Hd.
Qed.

(** C7, amended: [close] only calls [backend.close]: it completes when
    that call returns and throws what that call throws; unless the backend
    delivers messages from within that call, no continuation is called,
    every pending request keeps its entry and its promise is left as it
    was, and a feedback event handled after [close] is still handed to
    [feedback.dispatch]. *)
Theorem close_only_closes_backend b st :
  emitted b = [] →
  let st' := (close b st).2 in
  (close b st).1 = match failure b with
                   | Some e => Throw e
                   | None => Normal ()
                   end ∧
  new_effects st st' = [BackendClose] ∧
  requests st' = requests st ∧
  promises st' = promises st ∧
  requestId st' = requestId st ∧
  (∀ event, resp_method event = Some feedbackEvent →
     new_effects st' (handleResponse event st').2 =
       [LogDebug "feedback:" event; FeedbackDispatch (resp_params event)]).
Proof.
  intros Hquiet st'.
  assert (Hclose : close b st =
            (match failure b with
             | Some e => Throw e
             | None => Normal ()
             end, add_effect BackendClose st)).
  { rewrite close_unfold. unfold react. rewrite Hquiet. unfold_M.
    simpl. by destruct (failure b). }
  assert (Hst' : st' = add_effect BackendClose st) by (subst st'; by rewrite Hclose).
  split; [by rewrite Hclose|].
  rewrite Hst'. split; [apply new_effects_add_effect|]. repeat split.
  intros event Hm. rewrite handleResponse_feedback by done. cbn [snd].
  apply new_effects_app. rewrite !effects_add_effect. by rewrite <- !app_assoc.
Qed.

Lemma close_only_closes_backend_witness :
  let st := run [Execute "xGet" VNull quiet] fresh in
  (close quiet st).1 = Normal () ∧
  new_effects st (close quiet st).2 = [BackendClose] ∧
  requests (close quiet st).2 = requests st.
Proof.
  intros st.
  destruct (close_only_closes_backend quiet st eq_refl)
    as (Hreturns & Hnew & Htable & _).
  split; [exact Hreturns|]. split; [exact Hnew | exact Htable].
Defined.

(** * command and the forms of a path *)

Lemma append_cons c (w text : string) : String c w +:+ text = String c (w +:+ text).
Proof. reflexivity. Qed.

Lemma append_empty_r (w : string) : w +:+ "" = w.
Proof. induction w as [|c w IH]; [done | by rewrite append_cons, IH]. Qed.

Lemma split_segments_plain w text :
  plain w = true →
  split_segments (w +:+ text) =
    ((w +:+ (split_segments text).1), (split_segments text).2).
Proof.
  induction w as [|c w IH]; intros Hw.
  - change ("" +:+ text) with text. change ("" +:+ (split_segments text).1)
      with (split_segments text).1. by destruct (split_segments text).
  - simpl in Hw. apply andb_true_iff in Hw as [Hc Hw]. apply negb_true_iff in Hc.
    rewrite !append_cons. cbn [split_segments]. rewrite IH, Hc by done. reflexivity.
Qed.

Lemma split_segments_delimiter c text :
  is_delimiter c = true →
  split_segments (String c text) =
    ("", cons_segment (split_segments text).1 (split_segments text).2).
Proof. intros Hc. simpl. rewrite Hc. by destruct (split_segments text). Qed.

Lemma normalizePath_text text :
  normalizePath (PathString text) =
    cons_segment (split_segments text).1 (split_segments text).2.
Proof. simpl. by destruct (split_segments text). Qed.

Lemma cons_segment_nonempty w ws : w ≠ "" → cons_segment w ws = w :: ws.
Proof. by destruct w. Qed.

Lemma normalizePath_joined c segments :
  is_delimiter c = true →
  Forall is_segment segments →
  normalizePath (PathString (String.concat (String c "") segments)) = segments.
Proof.
  intros Hc Hsegs. rewrite normalizePath_text.
  induction Hsegs as [|w rest [Hne Hw] Hrest IH]; [done|].
  destruct rest as [|w' rest].
  - simpl. rewrite <- (append_empty_r w) at 1 2.
    rewrite split_segments_plain by done. simpl.
    rewrite append_empty_r. by apply cons_segment_nonempty.
  - change (String.concat (String c "") (w :: w' :: rest))
      with (w +:+ String c (String.concat (String c "") (w' :: rest))).
    rewrite split_segments_plain, split_segments_delimiter by done.
    cbn [fst snd]. rewrite IH, append_empty_r. by apply cons_segment_nonempty.
Qed.

(** * The default handler of the backend *)

(** C8: the default handler returns, without throwing, an outcome rejected
    with the message "Invalid request method", and that is the outcome of
    [Backend.execute] for every request whose method has no registered
    handler. *)
Theorem execute_without_handler_is_rejected
    (handlerKey : string → string) (handlers : gmap string Backend.handler)
    (r : Backend.request) :
  handlers !! handlerKey (Backend.method r) = None →
  Backend.defaultHandler r =
    Normal (Rejected (VError "Error" "Invalid request method")) ∧
  Backend.execute handlerKey handlers r =
    Rejected (VError "Error" "Invalid request method").
Proof.
  intros Hnone. split; [reflexivity|].
  unfold Backend.execute, Backend.handler in *. cbn zeta. rewrite Hnone. reflexivity.
Qed.

Lemma execute_without_handler_is_rejected_witness :
  Backend.execute (λ method, method) ∅
    {| Backend.id := None; Backend.method := "xCommand/Dial";
       Backend.params := VObj [("Number", VStr "user@example.com")] |} =
    Rejected (VError "Error" "Invalid request method").
Proof.
  apply execute_without_handler_is_rejected. apply lookup_empty.
Defined.

(** * Steps that send no request *)

Lemma unsent_refl st : unsent st st.
Proof. split; try done. exists []. by rewrite app_nil_r. Qed.

Lemma unsent_trans st1 st2 st3 : unsent st1 st2 → unsent st2 st3 → unsent st1 st3.
Proof.
  intros [Hc1 Hp1 Hi1 He1 [a1 Ha1]] [Hc2 Hp2 Hi2 He2 [a2 Ha2]].
  split; try congruence.
  - by transitivity (requests st2).
  - exists (a1 ++ a2). by rewrite Ha2, Ha1, app_assoc.
Qed.

Lemma handleResponse_unsent response st : unsent st (handleResponse response st).2.
Proof.
  destruct (handleResponse_handled response st) as [Hm|tag entry k v Hm He Hk|tag Hm He];
    cbn [snd].
  - split; try done.
    + simpl. by rewrite !issued_ids_snoc, !app_nil_r.
    + eexists. simpl. by rewrite <- app_assoc.
  - split; try done.
    + unfold after_call. cbn [promises set_requests set_promises]. apply settle_length.
    + apply issued_ids_after_call.
    + unfold after_call. cbn [requests set_requests]. apply delete_subseteq.
    + eexists. simpl. by rewrite <- app_assoc.
  - split; try done.
    + simpl. by rewrite issued_ids_snoc, app_nil_r.
    + by eexists.
Qed.

Lemma react_unsent b st : unsent st (react b st).2.
Proof.
  apply (react_keeps (unsent st)); [|apply unsent_refl].
  intros response st1 H1. eapply unsent_trans; [exact H1|apply handleResponse_unsent].
Qed.

Lemma close_unsent b st : unsent st (close b st).2.
Proof.
  rewrite close_unfold. eapply unsent_trans; [|apply react_unsent].
  split; try done.
  - simpl. by rewrite issued_ids_snoc, app_nil_r.
  - by eexists.
Qed.

Lemma run_unsent actions st :
  Forall (λ a, is_send a = false) actions → unsent st (run actions st).
Proof.
  induction actions as [|a actions IH] using rev_ind; [intros _; apply unsent_refl|].
  intros [Hall Ha]%Forall_app. rewrite run_snoc.
  eapply unsent_trans; [by apply IH|].
  apply Forall_cons in Ha as [Ha _].
  destruct a; try discriminate Ha; simpl.
  - apply handleResponse_unsent.
  - apply close_unsent.
Qed.

Lemma settle_resolve_pending p v ps :
  ps !! p = Some Pending → settle (ResolveOf p) v ps !! p = Some (Fulfilled v).
Proof.
  intros Hp. unfold settle. cbn [owner]. rewrite Hp.
  apply list_lookup_insert_eq. by eapply lookup_lt_Some.
Qed.

Lemma settle_unknown k v ps : ps !! owner k = None → settle k v ps = ps.
Proof. intros Hk. unfold settle. by rewrite Hk. Qed.

(** X1: handling one inbound message never calls the backend, never
    changes the request counter and never creates a promise; it leaves
    every entry but the one under the message's id as it was, and every
    promise but the one whose continuation it called. *)
Theorem handleResponse_touches_one_entry response st :
  let st' := (handleResponse response st).2 in
  let key := propertyKey (resp_id response) in
  requestId st' = requestId st ∧
  length (promises st') = length (promises st) ∧
  Forall (λ e, is_backend_call e = false) (new_effects st st') ∧
  (∀ id, id ≠ key → requests st' !! id = requests st !! id) ∧
  (requests st !! key = None → promises st' = promises st) ∧
  (∀ entry p, requests st !! key = Some entry →
     p ≠ owner (resolve entry) → p ≠ owner (reject entry) →
     promises st' !! p = promises st !! p).
Proof.
  intros st' key. subst st' key.
  destruct (handleResponse_handled response st) as [Hm|tag entry k v Hm He Hk|tag Hm He];
    cbn [snd].
  - repeat split; try done.
    apply Forall_forall. intros e.
    rewrite (new_effects_app st _ [LogDebug "feedback:" response;
               FeedbackDispatch (resp_params response)])
      by (simpl; by rewrite <- app_assoc).
    intros He. by repeat (apply elem_of_cons in He as [->|He]; [done|]);
      apply elem_of_nil in He.
  - split; [done|]. split; [unfold after_call; apply settle_length|].
    split; [rewrite new_effects_after_call; by repeat constructor|].
    unfold after_call. cbn [requests promises set_requests set_promises].
    split; [intros id Hid; by apply lookup_delete_ne|].
    split; [congruence|].
    intros entry' p He'. assert (entry' = entry) as -> by congruence.
    intros Hres Hrej. apply settle_lookup_ne. by destruct Hk as [->| ->].
  - repeat split; try done.
    rewrite new_effects_add_effect. by repeat constructor.
Qed.

Lemma handleResponse_touches_one_entry_witness :
  let st := run [Execute "xGet" VNull quiet; Execute "xSet" VNull quiet] fresh in
  let st' := (handleResponse (result_response "1" (VNum 5)) st).2 in
  requests st' !! "2" = requests st !! "2" ∧
  promises st' !! 1 = promises st !! 1 ∧
  promises (handleResponse (bare_response "7") st).2 = promises st.
Proof.
  intros st st'.
  destruct (handleResponse_touches_one_entry (result_response "1" (VNum 5)) st)
    as (_ & _ & _ & Hother & _ & Hpromise).
  destruct (handleResponse_touches_one_entry (bare_response "7") st)
    as (_ & _ & _ & _ & Hnone & _).
  assert (Hentry : requests st !! "1" = Some (entry_of 0)) by (vm_compute; reflexivity).
  assert (Hfree : requests st !! "7" = None) by (vm_compute; reflexivity).
  split; [apply Hother; discriminate|].
  split; [apply (Hpromise (entry_of 0) 1 Hentry); discriminate|].
  exact (Hnone Hfree).
Defined.

(** X2: no sequence of deliveries and calls of [close], with whatever the
    backend does inside [close], adds an entry to the table, hands a
    request to the backend, consumes an id or creates a promise: only
    [execute] does. *)
Theorem only_execute_adds_entries actions st :
  Forall (λ a, is_send a = false) actions →
  let st' := run actions st in
  requests st' ⊆ requests st ∧
  requestId st' = requestId st ∧
  length (promises st') = length (promises st) ∧
  issued_ids (effects st') = issued_ids (effects st).
Proof.
  intros Hall st'. destruct (run_unsent actions st Hall) as [Hc Hp Hi He _].
  done.
Qed.

Lemma only_execute_adds_entries_witness :
  let st := run [Execute "xGet" VNull quiet; Execute "xGet" VNull quiet] fresh in
  let noisy := {| emitted := [result_response "2" VNull; bare_response "5"];
                  guarded := true; failure := Some (VError "Error" "closed") |} in
  let st' := run [Deliver (feedback_message VNull); Close noisy;
                  Deliver (result_response "1" VNull)] st in
  requests st' ⊆ requests st ∧ requestId st' = 3%N ∧
  issued_ids (effects st') = ["1"; "2"].
Proof.
  intros st noisy st'.
  assert (Hall : Forall (λ a, is_send a = false)
            [Deliver (feedback_message VNull); Close noisy;
             Deliver (result_response "1" VNull)])
    by (repeat constructor).
  destruct (only_execute_adds_entries _ st Hall) as (Hsub & Hc & _ & Hi).
  split; [exact Hsub|]. split; [exact Hc | exact Hi].
Defined.

(** * What execute always does *)

(** X3: [execute] never throws to its caller, whatever the backend does
    inside the call: it returns the promise it created, the first thing it
    does is hand one request to the backend, with the current counter as
    id and the method and params it was given, it hands over no other
    request, and it moves the counter on by one step. *)
Theorem execute_always_returns method params b st :
  let st' := (execute method params b st).2 in
  (execute method params b st).1 = Normal (length (promises st)) ∧
  length (promises st') = S (length (promises st)) ∧
  requestId st' = increment (requestId st) ∧
  issued_ids (effects st') = issued_ids (effects st) ++ [toString (requestId st)] ∧
  ∃ rest, new_effects st st' =
            BackendExecute (createRequest (toString (requestId st)) method params)
            :: rest.
Proof.
  intros st'. subst st'. rewrite execute_unfold. cbn zeta.
  set (st0 := calling_backend method params st).
  destruct (react_unsent b st0) as [Hc Hp Hi _ [added Ha]].
  assert (Hp0 : length (promises st0) = S (length (promises st))).
  { unfold st0, calling_backend. cbn [promises add_effect set_requestId set_promises].
    rewrite length_app. simpl. lia. }
  assert (Hi0 : issued_ids (effects st0) =
                issued_ids (effects st) ++ [toString (requestId st)]).
  { unfold st0, calling_backend. by rewrite effects_add_effect, issued_ids_snoc. }
  assert (Ha0 : effects (react b st0).2 =
                effects st ++
                  BackendExecute (createRequest (toString (requestId st)) method params)
                  :: added).
  { rewrite Ha. unfold st0, calling_backend. rewrite effects_add_effect.
    cbn [effects set_requestId set_promises]. by rewrite <- app_assoc. }
  destruct (react b st0) as [[[]|e] st1]; cbn [fst snd] in *.
  - split; [done|]. cbn [promises requestId effects set_requests].
    split; [congruence|]. split; [by rewrite Hc|]. split; [congruence|].
    exists added. by apply new_effects_app.
  - split; [done|]. cbn [promises requestId effects set_promises].
    rewrite settle_length.
    split; [congruence|]. split; [by rewrite Hc|]. split; [congruence|].
    exists added. by apply new_effects_app.
Qed.

(** X4: when the call of the backend throws, [execute] rejects the promise
    it returns with what was thrown; no continuation of that promise is
    called, no entry is stored for it, and the table gains no entry at
    all. *)
Theorem execute_backend_failure_rejects actions method params b e :
  let st := run actions fresh in
  let p := length (promises st) in
  let st' := (execute method params b st).2 in
  (react b (calling_backend method params st)).1 = Throw e →
  promises st' !! p = Some (Rejected e) ∧
  calls_on p (effects st') = 0 ∧
  (∀ id, requests st' !! id ≠ Some (entry_of p)) ∧
  requests st' ⊆ requests st.
Proof.
  intros st p st' Hthrow. subst st'. rewrite execute_unfold. cbn zeta. fold p.
  set (st0 := calling_backend method params st) in *.
  pose proof (react_keeps (λ s, consistent s ∧ reserved p s)
                (handleResponse_reserved p) b st0
                (calling_backend_reserved method params st
                   (run_consistent actions))) as [_ (Hp & Hcalls & Hfree)].
  pose proof (fewer_entries _ _ (react_unsent b st0)) as Hsub.
  destruct (react b st0) as [[[]|e'] st1]; cbn [fst snd] in *; [done|].
  injection Hthrow as ->. cbn [promises requests effects set_promises].
  split; [by apply settle_reject_pending|]. done.
Qed.

Lemma execute_backend_failure_rejects_witness :
  let st := run [Execute "xGet" VNull quiet] fresh in
  let down := {| emitted := []; guarded := false;
                 failure := Some (VError "Error" "WebSocket is not open") |} in
  let st' := (execute "xCommand/Dial" VNull down st).2 in
  promises st' !! 1 = Some (Rejected (VError "Error" "WebSocket is not open")) ∧
  requests st' ⊆ requests st.
Proof.
  intros st down st'.
  destruct (execute_backend_failure_rejects [Execute "xGet" VNull quiet]
              "xCommand/Dial" VNull down (VError "Error" "WebSocket is not open")
              eq_refl) as (Hrejected & _ & _ & Hsub).
  split; [exact Hrejected | exact Hsub].
Defined.

(** * Requests and their responses *)

Lemma paired_weaken n m st st' :
  requests st' ⊆ requests st → n ≤ m → paired n st → paired m st'.
Proof.
  intros Hsub Hnm Hpaired id e He.
  destruct (Hpaired id e (lookup_weaken _ _ _ _ He Hsub)) as (p & Hp & -> & ->).
  exists p. split; [lia|done].
Qed.

Lemma calling_backend_requests method params st :
  requests (calling_backend method params st) = requests st.
Proof. reflexivity. Qed.

Lemma execute_paired n method params b st :
  counter_at n st → length (promises st) = n → paired n st →
  length (promises (execute method params b st).2) = S n ∧
  paired (S n) (execute method params b st).2.
Proof.
  intros [Hcounter _] Hlen Hpaired. rewrite execute_unfold. cbn zeta.
  set (st0 := calling_backend method params st).
  destruct (react_unsent b st0) as [_ Hp _ Hsub _].
  assert (Hp0 : length (promises st0) = S n).
  { unfold st0, calling_backend. cbn [promises add_effect set_requestId set_promises].
    rewrite length_app. simpl. lia. }
  destruct (react b st0) as [[[]|e] st1]; cbn [fst snd] in *.
  - split; [cbn [promises set_requests]; congruence|].
    intros id e. cbn [requests set_requests].
    intros [[<- <-]|[_ He]]%lookup_insert_Some.
    + exists n. split; [lia|]. split; [by rewrite Hlen|].
      unfold nth_id. by rewrite Hcounter.
    + apply (paired_weaken n (S n) st st1); [exact Hsub | lia | exact Hpaired | exact He].
  - split; [cbn [promises set_promises]; rewrite settle_length; congruence|].
    apply (paired_weaken n (S n) st st1); [exact Hsub | lia | exact Hpaired].
Qed.

Lemma run_paired actions :
  length (promises (run actions fresh)) = sends actions ∧
  paired (sends actions) (run actions fresh).
Proof.
  induction actions as [|a actions [Hlen Hpaired]] using rev_ind.
  { split; [done|]. intros id e He.
    change (requests (run [] fresh)) with (∅ : gmap string Entry) in He.
    by rewrite lookup_empty in He. }
  rewrite run_snoc, sends_snoc. pose proof (run_counter actions) as Hcounter.
  destruct a; simpl.
  - by apply execute_paired.
  - by apply execute_paired.
  - destruct (handleResponse_unsent response (run actions fresh)) as [_ Hp _ Hsub _].
    split; [congruence|].
    by apply (paired_weaken (sends actions) (sends actions) (run actions fresh)).
  - destruct (close_unsent b (run actions fresh)) as [_ Hp _ Hsub _].
    split; [congruence|].
    by apply (paired_weaken (sends actions) (sends actions) (run actions fresh)).
Qed.

(** X5: on an instance that has sent [n] requests, [execute] returns
    promise number [n], and the entry found under the id [p + 1] holds the
    continuations of promise [p], the one returned by the call that sent
    request [p + 1], which is still pending; so a response with that id
    settles exactly that promise: it is fulfilled with the result, or
    without a result rejected with the error.  (For [n] up to 2^53.) *)
Theorem response_settles_the_promise_of_its_request actions :
  let st := run actions fresh in
  let n := sends actions in
  (N.of_nat n ≤ maxExact)%N →
  length (promises st) = n ∧
  (∀ method params b, (execute method params b st).1 = Normal n) ∧
  (∀ p e, requests st !! toString (N.of_nat (S p)) = Some e →
     p < n ∧ e = entry_of p ∧ promises st !! p = Some Pending) ∧
  (∀ p response,
     resp_id response = Some (toString (N.of_nat (S p))) →
     resp_method response ≠ Some feedbackEvent →
     is_Some (requests st !! toString (N.of_nat (S p))) →
     promises (handleResponse response st).2 !! p =
       Some (match resp_result response with
             | Some r => Fulfilled r
             | None => Rejected (default VUndefined (resp_error response))
             end)).
Proof.
  intros st n Hn. destruct (run_paired actions) as [Hlen Hpaired].
  fold st n in Hlen, Hpaired.
  assert (Hentry : ∀ p e, requests st !! toString (N.of_nat (S p)) = Some e →
            p < n ∧ e = entry_of p ∧ promises st !! p = Some Pending).
  { intros p e He. destruct (Hpaired _ _ He) as (p' & Hp' & -> & Hid).
    rewrite nth_id_exact in Hid by lia. apply (inj toString) in Hid.
    assert (p = p') as <- by lia. split; [done|]. split; [done|].
    destruct (table_entries _ (run_consistent actions) _ _ He) as (q & Hq & Hpending & _).
    injection Hq as <-. done. }
  split; [done|]. split; [|split; [done|]].
  - intros method params b. rewrite execute_unfold. cbn zeta. rewrite Hlen.
    by destruct (react b _) as [[[]|e] st1].
  - intros p response Hid Hm [e He].
    destruct (Hentry p e He) as (_ & -> & Hpending).
    assert (Hkey : propertyKey (resp_id response) = toString (N.of_nat (S p)))
      by (by rewrite Hid).
    rewrite <- Hkey in He.
    destruct (resp_result response) as [r|] eqn:Hr.
    + rewrite (handleResponse_result response st r (entry_of p) Hm Hr He).
      unfold after_call. cbn [snd promises set_requests set_promises resolve entry_of].
      by apply settle_resolve_pending.
    + rewrite (handleResponse_error response st (entry_of p) Hm Hr He).
      unfold after_call. cbn [snd promises set_requests set_promises reject entry_of].
      by apply settle_reject_pending.
Qed.

Lemma response_settles_the_promise_of_its_request_witness :
  let st := run [Execute "xGet" VNull quiet; Execute "xSet" VNull quiet] fresh in
  let failure := VObj [("code", VNum 3); ("message", VStr "No such path")] in
  promises (handleResponse (result_response "2" (VNum 50)) st).2 !! 1 =
    Some (Fulfilled (VNum 50)) ∧
  promises (handleResponse (error_response "1" failure) st).2 !! 0 =
    Some (Rejected failure).
Proof.
  intros st failure.
  assert (Hn : (N.of_nat (sends [Execute "xGet" VNull quiet;
                                  Execute "xSet" VNull quiet]) ≤ maxExact)%N)
    by (vm_compute; discriminate).
  destruct (response_settles_the_promise_of_its_request _ Hn) as (_ & _ & _ & Hsettle).
  assert (Hm : ∀ response, resp_method response = None →
                 resp_method response ≠ Some feedbackEvent) by (intros ? ->; discriminate).
  assert (Hid2 : resp_id (result_response "2" (VNum 50)) =
                 Some (toString (N.of_nat 2))) by (vm_compute; reflexivity).
  assert (Hid1 : resp_id (error_response "1" failure) =
                 Some (toString (N.of_nat 1))) by (vm_compute; reflexivity).
  split.
  - apply (Hsettle 1 (result_response "2" (VNum 50)) Hid2
             (Hm (result_response "2" (VNum 50)) eq_refl)).
    vm_compute. by eexists.
  - apply (Hsettle 0 (error_response "1" failure) Hid1
             (Hm (error_response "1" failure) eq_refl)).
    vm_compute. by eexists.
Defined.

Lemma react_silent b st :
  emitted b = [] → failure b = None → react b st = (Normal (), st).
Proof. intros He Hf. unfold react. rewrite He, Hf. reflexivity. Qed.

Lemma settle_last k v ps :
  owner k = length ps →
  settle k v (ps ++ [Pending]) =
    ps ++ [match k with
           | ResolveOf _ => Fulfilled v
           | RejectOf _ => Rejected v
           end].
Proof.
  intros Hk. unfold settle. rewrite Hk, lookup_app_r, Nat.sub_diag by done.
  simpl. by rewrite insert_app_r_alt, Nat.sub_diag by done.
Qed.

(** X6: a request whose backend call returns without delivering anything,
    followed by the handling of a response with the request's id, leaves
    the table exactly as it was before the request, and the promise the
    request returned fulfilled with the result (rejected with the error
    when the response has no result).  (While the counter is below
    2^53.) *)
Theorem request_then_response_restores_table actions method params b response :
  let st := run actions fresh in
  let id := toString (requestId st) in
  let p := length (promises st) in
  let st1 := (execute method params b st).2 in
  let st2 := (handleResponse response st1).2 in
  (requestId st < maxExact)%N →
  emitted b = [] → failure b = None →
  resp_id response = Some id →
  resp_method response ≠ Some feedbackEvent →
  requests st1 = <[id := entry_of p]> (requests st) ∧
  requests st2 = requests st ∧
  promises st2 =
    promises st ++ [match resp_result response with
                    | Some r => Fulfilled r
                    | None => Rejected (default VUndefined (resp_error response))
                    end] ∧
  new_effects st st2 =
    BackendExecute (createRequest id method params) ::
    match resp_result response with
    | Some r => [LogDebug "result:" response; Call (ResolveOf p) r]
    | None => [LogDebug "error:" response;
               Call (RejectOf p) (default VUndefined (resp_error response))]
    end.
Proof.
  intros st id p st1 st2 Hlt He Hf Hid Hm.
  pose proof (next_id_unused actions Hlt) as Hnone. fold st id in Hnone.
  assert (Hkey : propertyKey (resp_id response) = id) by (by rewrite Hid).
  assert (Hst1 : st1 = set_requests (<[id := entry_of p]> (requests st))
                         (calling_backend method params st)).
  { subst st1. rewrite execute_unfold. cbn zeta. by rewrite react_silent. }
  assert (Hentry : requests st1 !! propertyKey (resp_id response) = Some (entry_of p)).
  { rewrite Hkey, Hst1. cbn [requests set_requests]. apply lookup_insert_eq. }
  assert (Hpromises : promises st1 = promises st ++ [Pending])
    by (by rewrite Hst1).
  assert (Hsettled : ∀ k v, owner k = p →
            settle k v (promises st1) =
              promises st ++ [match k with
                              | ResolveOf _ => Fulfilled v
                              | RejectOf _ => Rejected v
                              end]).
  { intros k v Hk. rewrite Hpromises. by apply settle_last. }
  assert (Heffects : ∀ tag k v,
            new_effects st (after_call tag response k v st1) =
              [BackendExecute (createRequest id method params);
               LogDebug tag response; Call k v]).
  { intros tag k v. apply new_effects_app.
    unfold after_call. cbn [effects set_requests set_promises].
    rewrite !effects_add_effect, Hst1. unfold calling_backend.
    cbn [effects set_requests]. rewrite effects_add_effect.
    cbn [effects set_requestId set_promises]. by rewrite <- !app_assoc. }
  split; [by rewrite Hst1|].
  subst st2. destruct (resp_result response) as [r|] eqn:Hr.
  - rewrite (handleResponse_result response st1 r (entry_of p) Hm Hr Hentry).
    unfold after_call at 1 2. cbn [snd requests promises set_requests set_promises].
    split; [|split; [by apply Hsettled|apply Heffects]].
    rewrite Hkey, Hst1. cbn [requests set_requests]. by apply delete_insert_id.
  - rewrite (handleResponse_error response st1 (entry_of p) Hm Hr Hentry).
    unfold after_call at 1 2. cbn [snd requests promises set_requests set_promises].
    split; [|split; [by apply Hsettled|apply Heffects]].
    rewrite Hkey, Hst1. cbn [requests set_requests]. by apply delete_insert_id.
Qed.

Lemma request_then_response_restores_table_witness :
  let st := run [Execute "xGet" VNull quiet] fresh in
  let st1 := (execute "xSet" VNull quiet st).2 in
  let st2 := (handleResponse (result_response "2" (VStr "ok")) st1).2 in
  requests st2 = requests st ∧
  promises st2 = promises st ++ [Fulfilled (VStr "ok")].
Proof.
  intros st st1 st2.
  assert (Hlt : (requestId st < maxExact)%N) by (vm_compute; reflexivity).
  assert (Hm : resp_method (result_response "2" (VStr "ok")) ≠ Some feedbackEvent)
    by (intros H; discriminate H).
  assert (Hid : resp_id (result_response "2" (VStr "ok")) =
                Some (toString (requestId st))) by (vm_compute; reflexivity).
  destruct (request_then_response_restores_table [Execute "xGet" VNull quiet]
              "xSet" VNull quiet (result_response "2" (VStr "ok"))
              Hlt eq_refl eq_refl Hid Hm) as (_ & Htable & Hpromises & _).
  split; [exact Htable | exact Hpromises].
Defined.

(** * What a fulfilled promise tells *)

Lemma justified_grow st st' :
  (∀ p v, promises st' !! p = Some (Fulfilled v) →
          promises st !! p = Some (Fulfilled v)) →
  (∃ added, effects st' = effects st ++ added) →
  justified st → justified st'.
Proof.
  intros Hold [added Ha] Hj p v Hp.
  destruct (Hj p v (Hold p v Hp)) as (response & Hlog & Hrest).
  exists response. split; [|done]. rewrite Ha. apply elem_of_app. by left.
Qed.

Lemma settle_reject_fulfilled q e ps p v :
  settle (RejectOf q) e ps !! p = Some (Fulfilled v) → ps !! p = Some (Fulfilled v).
Proof.
  unfold settle. cbn [owner]. destruct (ps !! q) as [[| |]|] eqn:Hq; try done.
  destruct (decide (q = p)) as [->|Hne].
  - rewrite list_lookup_insert_eq by (by eapply lookup_lt_Some). done.
  - by rewrite list_lookup_insert_ne.
Qed.

Lemma handleResponse_justified n response st :
  consistent st ∧ paired n st ∧ justified st →
  consistent (handleResponse response st).2 ∧
  paired n (handleResponse response st).2 ∧
  justified (handleResponse response st).2.
Proof.
  intros (Hcons & Hpaired & Hj).
  pose proof (handleResponse_unsent response st) as [_ _ _ Hsub Hgrow].
  split; [by apply handleResponse_consistent|].
  split; [by apply (paired_weaken n n st)|].
  destruct (decide (resp_method response = Some feedbackEvent)) as [Hm|Hm].
  { rewrite handleResponse_feedback in * by done. by apply (justified_grow st). }
  destruct (requests st !! propertyKey (resp_id response)) as [entry|] eqn:He.
  2: { rewrite handleResponse_unknown in * by done. by apply (justified_grow st). }
  destruct (table_entries _ Hcons _ _ He) as (p0 & -> & Hpending & _).
  destruct (Hpaired _ _ He) as (p' & _ & Hp' & Hkey). injection Hp' as <-.
  destruct (resp_result response) as [r|] eqn:Hr.
  - rewrite (handleResponse_result response st r (entry_of p0) Hm Hr He) in *.
    cbn [snd] in *. intros p v. unfold after_call at 1.
    cbn [promises set_requests set_promises resolve entry_of].
    destruct (decide (p = p0)) as [->|Hne].
    + rewrite settle_resolve_pending by done. intros [= <-].
      exists response. split; [|done].
      unfold after_call. cbn [effects set_requests set_promises].
      rewrite !effects_add_effect. apply elem_of_app. left.
      apply elem_of_app. right. apply elem_of_cons. by left.
    + rewrite settle_lookup_ne by (simpl; congruence). intros Hp.
      destruct (Hj p v Hp) as (response' & Hlog & Hrest).
      exists response'. split; [|done].
      unfold after_call. cbn [effects set_requests set_promises].
      rewrite !effects_add_effect. apply elem_of_app. left.
      apply elem_of_app. by left.
  - rewrite (handleResponse_error response st (entry_of p0) Hm Hr He) in *.
    cbn [snd] in *. apply (justified_grow st); [|done|done].
    intros p v. unfold after_call.
    cbn [promises set_requests set_promises reject entry_of].
    apply settle_reject_fulfilled.
Qed.

Lemma execute_justified n method params b st :
  consistent st → paired n st → justified st →
  justified (execute method params b st).2.
Proof.
  intros Hcons Hpaired Hj. rewrite execute_unfold. cbn zeta.
  set (st0 := calling_backend method params st).
  assert (Hj0 : justified st0).
  { apply (justified_grow st); [|by eexists|done].
    intros p v. unfold st0, calling_backend.
    cbn [promises add_effect set_requestId set_promises].
    intros [Hp|[_ Hp]]%lookup_app_Some; [done|].
    by destruct (p - length (promises st)) as [|[|?]]. }
  pose proof (react_keeps _ (handleResponse_justified n) b st0
                (conj (proj1 (calling_backend_reserved method params st Hcons))
                      (conj Hpaired Hj0))) as (_ & _ & Hj1).
  destruct (react b st0) as [[[]|e] st1]; cbn [snd] in *.
  - by apply (justified_grow st1); [|exists []; rewrite app_nil_r|].
  - apply (justified_grow st1); [|by exists []; rewrite app_nil_r|done].
    intros p v. cbn [promises set_promises]. apply settle_reject_fulfilled.
Qed.

Lemma run_justified actions : justified (run actions fresh).
Proof.
  induction actions as [|a actions IH] using rev_ind; [by intros p v Hp|].
  rewrite run_snoc.
  pose proof (run_consistent actions) as Hcons.
  destruct (run_paired actions) as [_ Hpaired].
  destruct a; simpl.
  - by eapply execute_justified.
  - by eapply execute_justified.
  - by apply (handleResponse_justified (sends actions)).
  - rewrite close_unfold.
    apply (react_keeps _ (handleResponse_justified (sends actions))).
    split; [|split; [done|]].
    + apply (consistent_ext (run actions fresh)); [done|done| |done].
      intros p. by rewrite calls_on_add_effect.
    + apply (justified_grow (run actions fresh)); [done|by eexists|done].
Qed.

(** X7: a promise returned by [execute] is fulfilled only with the result
    of a response that was handled and carried the id of the promise's own
    request: never by an error response, a feedback event, or the response
    to another request. *)
Theorem fulfilled_only_by_own_response actions p v :
  let st := run actions fresh in
  promises st !! p = Some (Fulfilled v) →
  ∃ response id,
    issued_ids (effects st) !! p = Some id ∧
    propertyKey (resp_id response) = id ∧
    resp_method response ≠ Some feedbackEvent ∧
    resp_result response = Some v ∧
    LogDebug "result:" response ∈ effects st.
Proof.
  intros st Hp.
  destruct (run_justified actions p v Hp) as (response & Hlog & Hm & Hr & Hkey).
  destruct (run_paired actions) as [Hlen _].
  destruct (run_counter actions) as [_ Hids].
  exists response, (nth_id (S p)). split; [|done].
  fold st in Hids. rewrite Hids, list_lookup_fmap, lookup_seq_lt; [done|].
  rewrite <- Hlen. by eapply lookup_lt_Some.
Qed.

Lemma fulfilled_only_by_own_response_witness :
  let st := run [Execute "xGet" VNull quiet; Execute "xGet" VNull quiet;
                 Deliver (result_response "2" (VNum 70))] fresh in
  ∃ response,
    propertyKey (resp_id response) = "2" ∧ resp_result response = Some (VNum 70) ∧
    LogDebug "result:" response ∈ effects st.
Proof.
  intros st.
  assert (Hp : promises st !! 1 = Some (Fulfilled (VNum 70))) by (vm_compute; reflexivity).
  destruct (fulfilled_only_by_own_response _ 1 (VNum 70) Hp)
    as (response & id & Hid & Hkey & _ & Hr & Hlog).
  exists response. split; [|split; [exact Hr | exact Hlog]].
  rewrite Hkey. vm_compute in Hid. by injection Hid.
Defined.

(** * The body of a command *)

Lemma get_set_property key k v properties :
  get_property key (set_property k v properties) =
    if decide (k = key) then Some v else get_property key properties.
Proof.
  induction properties as [|[k' x] rest IH]; simpl.
  - by case_decide.
  - destruct (decide (k' = k)) as [->|Hne]; simpl.
    + by case_decide.
    + rewrite IH. repeat case_decide; congruence.
Qed.

Lemma get_property_absent key properties :
  key ∉ properties.*1 → get_property key properties = None.
Proof.
  induction properties as [|[k x] rest IH]; [done|]. simpl.
  intros [Hne Hrest]%not_elem_of_cons. rewrite decide_False by done. auto.
Qed.

Lemma get_property_assign key target properties :
  NoDup properties.*1 →
  get_property key (foldl (λ t kv, set_property kv.1 kv.2 t) target properties) =
    match get_property key properties with
    | Some v => Some v
    | None => get_property key target
    end.
Proof.
  revert target. induction properties as [|[k x] rest IH]; intros target; [done|].
  simpl. intros [Hk Hrest]%NoDup_cons. rewrite IH by done. rewrite get_set_property.
  case_decide as Heq; [subst k|done].
  by rewrite get_property_absent.
Qed.

Lemma execute_effects method params b st :
  ∃ rest, new_effects st (execute method params b st).2 =
            BackendExecute (createRequest (toString (requestId st)) method params)
            :: rest.
Proof.
  rewrite execute_unfold. cbn zeta.
  destruct (more_effects _ _ (react_unsent b (calling_backend method params st)))
    as [added Ha].
  exists added. apply new_effects_app.
  destruct (react b _) as [[[]|e] st1]; cbn [snd effects set_requests set_promises] in *;
    rewrite Ha; unfold calling_backend; rewrite effects_add_effect;
    cbn [effects set_requestId set_promises]; by rewrite <- app_assoc.
Qed.

(** X8: [command] with a body sends the params with the body added under
    the key "body", but a "body" key of the params themselves wins over
    the body argument; every other param is passed on unchanged, and
    without params the body is all that is sent.  Without a body the
    params are sent as they are. *)
Theorem command_body_yields_to_params path properties text b st :
  NoDup properties.*1 →
  (∃ merged rest,
     new_effects st (command path (VObj properties) (Some text) b st).2 =
       BackendExecute (createRequest (toString (requestId st)) (command_method path)
                         (VObj merged)) :: rest ∧
     ∀ key, get_property key merged =
              match get_property key properties with
              | Some v => Some v
              | None => if decide (key = "body") then Some (VStr text) else None
              end) ∧
  (∃ rest,
     new_effects st (command path VUndefined (Some text) b st).2 =
       BackendExecute (createRequest (toString (requestId st)) (command_method path)
                         (VObj [("body", VStr text)])) :: rest) ∧
  (∃ rest,
     new_effects st (command path (VObj properties) None b st).2 =
       BackendExecute (createRequest (toString (requestId st)) (command_method path)
                         (VObj properties)) :: rest).
Proof.
  intros Hnodup. unfold command. split; [|split].
  - eexists. destruct (execute_effects (command_method path)
                         (assign_body text (VObj properties)) b st) as [rest Hrest].
    exists rest. split; [exact Hrest|].
    intros key. cbn [own_properties]. rewrite get_property_assign by done.
    destruct (get_property key properties); [done|]. simpl.
    repeat case_decide; congruence.
  - apply execute_effects.
  - apply execute_effects.
Qed.

Lemma command_body_yields_to_params_witness :
  ∃ merged rest,
    new_effects fresh
      (command (PathString "UserInterface Extensions Set")
         (VObj [("ConfigId", VStr "example"); ("body", VStr "<Own/>")])
         (Some "<Extensions/>") quiet fresh).2 =
      BackendExecute (createRequest "1" "xCommand/UserInterface/Extensions/Set"
                        (VObj merged)) :: rest ∧
    get_property "body" merged = Some (VStr "<Own/>") ∧
    get_property "ConfigId" merged = Some (VStr "example").
Proof.
  assert (Hnodup : NoDup [("ConfigId", VStr "example"); ("body", VStr "<Own/>")].*1).
  { compute_done. }
  destruct (command_body_yields_to_params
              (PathString "UserInterface Extensions Set")
              [("ConfigId", VStr "example"); ("body", VStr "<Own/>")]
              "<Extensions/>" quiet fresh Hnodup)
    as ((merged & rest & Hsent & Hget) & _).
  exists merged, rest. split; [exact Hsent|].
  split; [exact (Hget "body") | exact (Hget "ConfigId")].
Defined.

(** * The order of what goes out *)

Lemma sent_requests_snoc es e :
  sent_requests (es ++ [e]) =
    sent_requests es ++ match e with BackendExecute r => [r] | _ => [] end.
Proof. unfold sent_requests. rewrite omap_app. by destruct e. Qed.

Lemma handleResponse_sent requests_so_far response st :
  sent_requests (effects st) = requests_so_far →
  sent_requests (effects (handleResponse response st).2) = requests_so_far.
Proof.
  intros <-.
  destruct (handleResponse_handled response st) as [Hm|tag entry k v Hm He Hk|tag Hm He];
    cbn [snd]; unfold after_call;
    cbn [effects set_requests set_promises]; rewrite ?effects_add_effect;
    by rewrite !sent_requests_snoc, !app_nil_r.
Qed.

Lemma execute_sent method params b st :
  sent_requests (effects (execute method params b st).2) =
    sent_requests (effects st) ++
      [createRequest (toString (requestId st)) method params].
Proof.
  rewrite execute_unfold. cbn zeta.
  assert (H0 : sent_requests (effects (calling_backend method params st)) =
               sent_requests (effects st) ++
                 [createRequest (toString (requestId st)) method params]).
  { unfold calling_backend. by rewrite effects_add_effect, sent_requests_snoc. }
  pose proof (react_keeps _ (handleResponse_sent _) b
                (calling_backend method params st) H0) as Hr.
  by destruct (react b _) as [[[]|e] st1].
Qed.

Lemma close_sent b st :
  sent_requests (effects (close b st).2) = sent_requests (effects st).
Proof.
  rewrite close_unfold.
  apply (react_keeps _ (handleResponse_sent (sent_requests (effects st)))).
  by rewrite effects_add_effect, sent_requests_snoc, app_nil_r.
Qed.

(** X9: the requests reach the backend one per call of [execute] or
    [command], in the order of the calls, each with the method and the
    params of its call, whatever is delivered or closed in between and
    whatever the backend does inside the calls. *)
Theorem requests_sent_in_call_order actions :
  (λ r, (req_method r, req_params r)) <$> sent_requests (effects (run actions fresh)) =
    omap call_of actions.
Proof.
  induction actions as [|a actions IH] using rev_ind; [done|].
  rewrite run_snoc, omap_app. destruct a; simpl.
  - by rewrite execute_sent, fmap_app, IH.
  - unfold command. by rewrite execute_sent, fmap_app, IH.
  - rewrite app_nil_r, <- IH. f_equal. by apply handleResponse_sent.
  - rewrite app_nil_r, <- IH. f_equal. apply close_sent.
Qed.

Lemma dispatched_snoc es e :
  dispatched (es ++ [e]) =
    dispatched es ++ match e with FeedbackDispatch params => [params] | _ => [] end.
Proof. unfold dispatched. rewrite omap_app. by destruct e. Qed.

Lemma handleResponse_dispatched response st :
  dispatched (effects (handleResponse response st).2) =
    dispatched (effects st) ++
      if decide (resp_method response = Some feedbackEvent)
      then [resp_params response] else [].
Proof.
  destruct (handleResponse_handled response st) as [Hm|tag entry k v Hm He Hk|tag Hm He];
    cbn [snd]; unfold after_call;
    cbn [effects set_requests set_promises]; rewrite ?effects_add_effect;
    rewrite !dispatched_snoc, ?app_nil_r;
    [by rewrite decide_True | by rewrite decide_False, app_nil_r
    | by rewrite decide_False, app_nil_r].
Qed.

Lemma react_nothing_emitted b st : emitted b = [] → (react b st).2 = st.
Proof. intros He. unfold react. rewrite He. unfold_M. simpl. by destruct (failure b). Qed.

(** X10: when the backend delivers its messages from its own events (none
    from within a call of the facade), the feedback events are handed to
    [feedback.dispatch] once each, in the order they arrive, with their
    params; pending requests, responses and payloads whose handling throws
    do not get in the way. *)
Theorem feedback_dispatched_in_arrival_order actions :
  Forall (λ a, answers_later a = true) actions →
  dispatched (effects (run actions fresh)) = omap feedback_of actions.
Proof.
  induction actions as [|a actions IH] using rev_ind; [done|].
  intros [Hall Ha]%Forall_app. apply Forall_cons in Ha as [Ha _].
  rewrite run_snoc, omap_app, <- IH by done.
  assert (Hsend : ∀ method params b, emitted b = [] →
            dispatched (effects (execute method params b (run actions fresh)).2) =
              dispatched (effects (run actions fresh)) ++ []).
  { intros method params b Hb. rewrite execute_unfold. cbn zeta.
    pose proof (react_nothing_emitted b
                  (calling_backend method params (run actions fresh)) Hb) as Hr.
    destruct (react b _) as [[[]|e] st1]; cbn [snd] in *; subst st1;
      cbn [effects set_requests set_promises]; unfold calling_backend;
      by rewrite effects_add_effect, dispatched_snoc. }
  destruct a; simpl in *.
  - apply Hsend. by destruct (emitted b).
  - apply Hsend. by destruct (emitted b).
  - rewrite handleResponse_dispatched. by case_decide.
  - rewrite close_unfold, react_nothing_emitted by (by destruct (emitted b)).
    by rewrite effects_add_effect, dispatched_snoc.
Qed.

Lemma feedback_dispatched_in_arrival_order_witness :
  let standby := VObj [("Standby", VStr "On")] in
  let volume := VObj [("Volume", VNum 60)] in
  dispatched (effects (run [Execute "xGet" VNull quiet;
                            Deliver (feedback_message standby);
                            Deliver (bare_response "9");
                            Deliver (result_response "1" VNull);
                            Deliver (feedback_message volume)] fresh)) =
    [standby; volume].
Proof.
  intros standby volume.
  apply (feedback_dispatched_in_arrival_order
           [Execute "xGet" VNull quiet;
            Deliver (feedback_message standby);
            Deliver (bare_response "9");
            Deliver (result_response "1" VNull);
            Deliver (feedback_message volume)]).
  repeat constructor.
Defined.

(** * The counter at its bound *)

(** X11: once the counter has reached 2^53 it moves no further: the next
    requests all carry the id 9007199254740992, and the entry of each
    replaces the pending entry of the one before, whose promise is left
    pending outside the table. *)
Theorem counter_stops_at_its_bound method1 params1 method2 params2 st :
  requestId st = maxExact →
  let p := length (promises st) in
  let st1 := (execute method1 params1 quiet st).2 in
  let st2 := (execute method2 params2 quiet st1).2 in
  new_effects st st2 =
    [BackendExecute (createRequest "9007199254740992" method1 params1);
     BackendExecute (createRequest "9007199254740992" method2 params2)] ∧
  requestId st2 = maxExact ∧
  requests st1 !! "9007199254740992" = Some (entry_of p) ∧
  requests st2 = <["9007199254740992" := entry_of (S p)]> (requests st) ∧
  promises st2 = promises st ++ [Pending; Pending].
Proof.
  intros Hmax p st1 st2.
  assert (Hid : toString maxExact = "9007199254740992") by (vm_compute; reflexivity).
  assert (Hst1 : st1 = set_requests (<["9007199254740992" := entry_of p]> (requests st))
                         (calling_backend method1 params1 st)).
  { subst st1. rewrite execute_unfold. cbn zeta.
    rewrite react_silent by done. by rewrite Hmax, Hid. }
  assert (Hc1 : requestId st1 = maxExact).
  { rewrite Hst1. cbn [requestId set_requests calling_backend add_effect set_requestId].
    by rewrite Hmax. }
  assert (Hp1 : length (promises st1) = S p).
  { rewrite Hst1. cbn [promises set_requests calling_backend add_effect
                       set_requestId set_promises].
    rewrite length_app. simpl. lia. }
  assert (Hst2 : st2 = set_requests (<["9007199254740992" := entry_of (S p)]> (requests st1))
                         (calling_backend method2 params2 st1)).
  { subst st2. rewrite execute_unfold. cbn zeta.
    rewrite react_silent by done. by rewrite Hc1, Hid, Hp1. }
  split; [|split; [|split; [|split]]].
  - apply new_effects_app. rewrite Hst2. cbn [effects set_requests].
    unfold calling_backend at 1. rewrite effects_add_effect.
    cbn [effects set_requestId set_promises]. rewrite Hc1, Hid, Hst1.
    cbn [effects set_requests]. unfold calling_backend. rewrite effects_add_effect.
    cbn [effects set_requestId set_promises]. rewrite Hmax, Hid.
    by rewrite <- app_assoc.
  - rewrite Hst2. cbn [requestId set_requests calling_backend add_effect set_requestId].
    by rewrite Hc1.
  - rewrite Hst1. cbn [requests set_requests]. apply lookup_insert_eq.
  - rewrite Hst2, Hst1. cbn [requests set_requests calling_backend add_effect
                              set_requestId set_promises].
    apply insert_insert_eq.
  - rewrite Hst2, Hst1. cbn [promises set_requests calling_backend add_effect
                              set_requestId set_promises].
    by rewrite <- app_assoc.
Qed.

Lemma counter_stops_at_its_bound_witness :
  let st := set_requestId maxExact fresh in
  let st1 := (execute "xGet" VNull quiet st).2 in
  let st2 := (execute "xSet" VNull quiet st1).2 in
  requestId st2 = maxExact ∧
  requests st2 = <["9007199254740992" := entry_of 1]> (requests st).
Proof.
  intros st st1 st2.
  destruct (counter_stops_at_its_bound "xGet" VNull "xSet" VNull st eq_refl)
    as (_ & Hcounter & _ & Htable & _).
  split; [exact Hcounter | exact Htable].
Defined.

(** * command, what it sends *)

(** C6: for segments that are not empty and contain neither a space nor a
    slash, the text that joins them with spaces, the text that joins them
    with slashes and the array of the segments normalize to the same
    sequence, the segments themselves with their case untouched; for each
    of the three forms the request [command] hands to the backend carries
    the method "xCommand/" followed by the segments joined with "/" (and
    the params of the call, with the body added when there is one), so
    [command] does the same for all three. *)
Theorem command_path_forms_agree segments :
  Forall is_segment segments →
  let spaced := PathString (String.concat " " segments) in
  let slashed := PathString (String.concat "/" segments) in
  let listed := PathArray segments in
  let method := "xCommand/" +:+ String.concat "/" segments in
  normalizePath spaced = segments ∧
  normalizePath slashed = segments ∧
  normalizePath listed = segments ∧
  command_method spaced = method ∧
  command_method slashed = method ∧
  command_method listed = method ∧
  (∀ path params body b st,
     path = spaced ∨ path = slashed ∨ path = listed →
     ∃ rest,
       new_effects st (command path params body b st).2 =
         BackendExecute
           (createRequest (toString (requestId st)) method
              match body with
              | None => params
              | Some text => assign_body text params
              end) :: rest) ∧
  (∀ params body b st,
     command spaced params body b st = command listed params body b st ∧
     command slashed params body b st = command listed params body b st).
Proof.
  intros Hsegs spaced slashed listed method.
  assert (Hspaced : normalizePath spaced = segments)
    by (by apply (normalizePath_joined " "%char)).
  assert (Hslashed : normalizePath slashed = segments)
    by (by apply (normalizePath_joined "/"%char)).
  assert (Hmethod : ∀ path, path = spaced ∨ path = slashed ∨ path = listed →
                      command_method path = method).
  { intros path [->|[->| ->]]; unfold command_method;
      by rewrite ?Hspaced, ?Hslashed. }
  split; [done|]. split; [done|]. split; [done|].
  split; [apply Hmethod; auto|]. split; [apply Hmethod; auto|].
  split; [apply Hmethod; auto|]. split.
  - intros path params body b st Hpath. unfold command.
    rewrite (Hmethod path Hpath). apply execute_effects.
  - intros params body b st. unfold command.
    rewrite !Hmethod by auto. done.
Qed.

Lemma command_path_forms_agree_witness :
  normalizePath (PathString "Audio Volume Set") = ["Audio"; "Volume"; "Set"] ∧
  normalizePath (PathString "Audio/Volume/Set") = ["Audio"; "Volume"; "Set"] ∧
  command_method (PathString "Audio Volume Set") = "xCommand/Audio/Volume/Set" ∧
  ∃ rest,
    new_effects fresh
      (command (PathString "Audio Volume Set") (VObj [("Level", VNum 50)])
         None quiet fresh).2 =
      BackendExecute
        (createRequest "1" "xCommand/Audio/Volume/Set" (VObj [("Level", VNum 50)]))
      :: rest.
Proof.
  assert (Hsegs : Forall is_segment ["Audio"; "Volume"; "Set"])
    by (repeat constructor; discriminate).
  destruct (command_path_forms_agree ["Audio"; "Volume"; "Set"] Hsegs)
    as (Hspaced & Hslashed & _ & Hmethod & _ & _ & Hsends & _).
  split; [exact Hspaced|]. split; [exact Hslashed|]. split; [exact Hmethod|].
  exact (Hsends (PathString "Audio Volume Set") (VObj [("Level", VNum 50)])
           None quiet fresh (or_introl eq_refl)).
Defined.
